(** * HiddenOrderDEX: the encrypted order ledger and its decryption callbacks

    A shallow embedding of the Solidity contract [HiddenOrderDEX]
    (src/README.md).  Contract storage is an explicit [State] record, every
    public function is a Rocq function from the caller, its arguments and the
    state to a [result], and the homomorphic-encryption library the contract
    imports ([FHE]) is an interface the development is parametric in. *)

From Stdlib Require Import ZArith Lia List Bool.
From Stdlib Require Import Strings.Byte Strings.String.
From stdpp Require Import base numbers option list gmap strings.

Import ListNotations.
Local Open Scope Z_scope.

(** ** Bytes and fixed-width integers *)

Definition Z_of_byte (b : byte) : Z := Z.of_N (Byte.to_N b).

Definition byte_of_Z (z : Z) : byte :=
  default x00 (Byte.of_N (Z.to_N (z mod 256))).

(** [be_bytes n v]: the [n] low-order bytes of [v], most significant first
    (how the EVM lays out a [uintN] word). *)
Fixpoint be_bytes (n : nat) (v : Z) : list byte :=
  match n with
  | O => []
  | S k => be_bytes k (v / 256) ++ [byte_of_Z v]
  end.

Definition be_value (bs : list byte) : Z :=
  fold_left (fun acc b => acc * 256 + Z_of_byte b) bs 0.

(** Little-endian counterparts, used for the lanes of the Keccak state. *)
Fixpoint le_bytes (n : nat) (v : Z) : list byte :=
  match n with
  | O => []
  | S k => byte_of_Z v :: le_bytes k (v / 256)
  end.

Definition le_value (bs : list byte) : Z :=
  fold_right (fun b acc => Z_of_byte b + 256 * acc) 0 bs.

Definition uint256_max : Z := 2 ^ 256 - 1.
Definition uint32_max : Z := 2 ^ 32 - 1.

Definition is_uint256 (v : Z) : Prop := 0 <= v <= uint256_max.

(** ** Keccak-256, the EVM's [keccak256]

    The sponge over Keccak-f[1600] with rate 136 bytes and the original
    Keccak padding (domain byte 0x01), as the EVM opcode computes it. *)
Module Keccak.

Definition mask64 : Z := Z.ones 64.

Definition rotl64 (x : Z) (n : Z) : Z :=
  Z.land (Z.lor (Z.shiftl x n) (Z.shiftr x (64 - n))) mask64.

Definition lane (A : list Z) (i : nat) : Z := nth i A 0.

Definition RC : list Z :=
  [ 0x0000000000000001; 0x0000000000008082; 0x800000000000808a;
    0x8000000080008000; 0x000000000000808b; 0x0000000080000001;
    0x8000000080008081; 0x8000000000008009; 0x000000000000008a;
    0x0000000000000088; 0x0000000080008009; 0x000000008000000a;
    0x000000008000808b; 0x800000000000008b; 0x8000000000008089;
    0x8000000000008003; 0x8000000000008002; 0x8000000000000080;
    0x000000000000800a; 0x800000008000000a; 0x8000000080008081;
    0x8000000000008080; 0x0000000080000001; 0x8000000080008008 ].

(** Rotation offsets, indexed by [x + 5 * y]. *)
Definition ROT : list Z :=
  [  0;  1; 62; 28; 27;
    36; 44;  6; 55; 20;
     3; 10; 43; 25; 39;
    41; 45; 15; 21;  8;
    18;  2; 61; 56; 14 ].

Definition theta (A : list Z) : list Z :=
  let C := map (fun x => Z.lxor (lane A x) (Z.lxor (lane A (x + 5))
                  (Z.lxor (lane A (x + 10)) (Z.lxor (lane A (x + 15)) (lane A (x + 20))))))
               (seq 0 5) in
  let D := map (fun x => Z.lxor (lane C ((x + 4) mod 5)) (rotl64 (lane C ((x + 1) mod 5)) 1))
               (seq 0 5) in
  map (fun i => Z.lxor (lane A i) (lane D (i mod 5))) (seq 0 25).

(** rho and pi together: lane [(x, y)] rotated by its offset lands at
    [(y, 2x + 3y)]; read backwards, position [(X, Y)] receives the lane
    [(X + 3Y mod 5, X)]. *)
Definition rho_pi (A : list Z) : list Z :=
  map (fun j => let X := (j mod 5)%nat in
                let Y := (j / 5)%nat in
                let src := (((X + 3 * Y) mod 5) + 5 * X)%nat in
                rotl64 (lane A src) (nth src ROT 0))
      (seq 0 25).

Definition chi (B : list Z) : list Z :=
  map (fun j => let x := (j mod 5)%nat in
                let y := (j / 5)%nat in
                Z.lxor (lane B j)
                       (Z.land (Z.lxor (lane B (((x + 1) mod 5) + 5 * y)) mask64)
                               (lane B (((x + 2) mod 5) + 5 * y))))
      (seq 0 25).

Definition iota (rc : Z) (A : list Z) : list Z :=
  match A with
  | [] => []
  | a :: rest => Z.lxor a rc :: rest
  end.

Definition round (A : list Z) (rc : Z) : list Z :=
  iota rc (chi (rho_pi (theta A))).

Definition keccak_f (A : list Z) : list Z := fold_left round RC A.

Definition rate : nat := 136.

Definition pad (len : nat) : list byte :=
  let q := (rate - len mod rate)%nat in
  if (q =? 1)%nat then [x81]
  else x01 :: repeat x00 (q - 2) ++ [x80].

(** The block's 17 lanes are xored into the first 17 lanes of the state. *)
Definition xor_block (A : list Z) (block : list byte) : list Z :=
  map (fun i => if (i <? 17)%nat
                then Z.lxor (lane A i) (le_value (firstn 8 (skipn (8 * i) block)))
                else lane A i)
      (seq 0 25).

Fixpoint absorb (nblocks : nat) (A : list Z) (p : list byte) : list Z :=
  match nblocks with
  | O => A
  | S k => absorb k (keccak_f (xor_block A (firstn rate p))) (skipn rate p)
  end.

Definition keccak256 (msg : list byte) : list byte :=
  let p := msg ++ pad (length msg) in
  let A := absorb (length p / rate) (repeat 0 25) p in
  flat_map (le_bytes 8) (firstn 4 A).

End Keccak.

(** ** ABI encoding, as far as the contract uses it *)
Module Abi.

(** [abi.encodePacked(uint256, uint256)]: the two 32-byte big-endian words,
    one after the other. *)
Definition encodePacked (a b : Z) : list byte :=
  be_bytes 32 a ++ be_bytes 32 b.

(** The 32-byte word of [data] at byte offset [off]. *)
Definition word (data : list byte) (off : Z) : Z :=
  be_value (firstn 32 (skipn (Z.to_nat off) data)).

(** [abi.decode(data, (uint32[]))] with the checks of the ABI decoder: the
    head is an offset to the array, the array is its length followed by one
    word per element, and an element with bits above the low 32 set is
    refused.  [None] is a revert of the decoder. *)
Definition decode_uint32_array (data : list byte) : option (list Z) :=
  let size := Z.of_nat (length data) in
  if size <? 32 then None else
  let offset := word data 0 in
  if 0xffffffffffffffff <? offset then None else
  if negb (offset + 31 <? size) then None else
  let len := word data offset in
  if 0xffffffffffffffff <? len then None else
  let src := offset + 32 in
  if size <? src + len * 32 then None else
  mapM (fun i => let v := word data (src + 32 * Z.of_nat i) in
                 if v <=? uint32_max then Some v else None)
       (seq 0 (Z.to_nat len)).

(** The encoder, used to build well-formed callback payloads. *)
Definition encode_uint32_array (vs : list Z) : list byte :=
  be_bytes 32 32 ++ be_bytes 32 (Z.of_nat (length vs)) ++ flat_map (be_bytes 32) vs.

End Abi.

(** ** The FHE library the contract imports

    [@fhevm/solidity/lib/FHE.sol] is not part of the repository: the contract
    is modelled over any implementation of the operations it calls. *)
Module FHE.

Class Lib : Type := {
  euint32 : Type;
  ebool : Type;
  (** the value of an [euint32] storage slot never written *)
  zeroHandle : euint32;
  asEuint32 : Z -> euint32;
  asEbool : bool -> ebool;
  eq : euint32 -> euint32 -> ebool;
  gt : euint32 -> euint32 -> ebool;
  lt : euint32 -> euint32 -> ebool;
  ge : euint32 -> euint32 -> ebool;
  and : ebool -> ebool -> ebool;
  select : ebool -> euint32 -> euint32 -> euint32;
  add : euint32 -> euint32 -> euint32;
  div : euint32 -> euint32 -> euint32;
  toBytes32 : euint32 -> Z;
  (** [checkSignatures requestId cleartexts proof]: [false] is a revert *)
  checkSignatures : Z -> list byte -> list byte -> bool;
}.

(** What a ciphertext decrypts to.  Not callable by the contract; it gives
    the homomorphic operations their meaning. *)
Class Plain (L : Lib) : Type := {
  decrypt : euint32 -> Z;
  decryptBool : ebool -> bool;
}.

(** The operations compute on the plaintexts; [euint32] arithmetic is
    unchecked and wraps modulo 2^32. *)
Class Laws (L : Lib) (P : Plain L) : Prop := {
  decrypt_range : forall c, 0 <= decrypt c <= uint32_max;
  decrypt_asEuint32 : forall v, 0 <= v <= uint32_max -> decrypt (asEuint32 v) = v;
  decrypt_asEbool : forall b, decryptBool (asEbool b) = b;
  decrypt_eq : forall a b, decryptBool (eq a b) = (decrypt a =? decrypt b);
  decrypt_gt : forall a b, decryptBool (gt a b) = (decrypt b <? decrypt a);
  decrypt_lt : forall a b, decryptBool (lt a b) = (decrypt a <? decrypt b);
  decrypt_ge : forall a b, decryptBool (ge a b) = (decrypt b <=? decrypt a);
  decrypt_and : forall a b, decryptBool (and a b) = (decryptBool a && decryptBool b);
  decrypt_select : forall c a b,
    decrypt (select c a b) = if decryptBool c then decrypt a else decrypt b;
  decrypt_add : forall a b, decrypt (add a b) = (decrypt a + decrypt b) mod 2 ^ 32;
  decrypt_div : forall a b, decrypt b <> 0 -> decrypt (div a b) = decrypt a / decrypt b;
}.

End FHE.

Abbreviation euint32 := FHE.euint32.
Abbreviation ebool := FHE.ebool.

(** ** Outcome of a call *)

Inductive result (A : Type) : Type :=
| Ok (a : A)
| Revert (reason : string)
| Panic (code : Z).

Arguments Ok {A} a.
Arguments Revert {A} reason.
Arguments Panic {A} code.

#[export] Instance result_ret : MRet result := fun _ a => Ok a.
#[export] Instance result_bind : MBind result := fun _ _ f m =>
  match m with
  | Ok a => f a
  | Revert r => Revert r
  | Panic c => Panic c
  end.

Definition require (cond : bool) (reason : string) : result unit :=
  if cond then Ok tt else Revert reason.

(** Arithmetic overflow or underflow, and array index out of bounds. *)
Definition PANIC_ARITHMETIC : Z := 0x11.
Definition PANIC_INDEX : Z := 0x32.

(** The spec's error kinds, as the reasons the contract reverts with. *)
Definition Unauthorized {A} : result A := Revert "Not order owner".
Definition NotActive {A} : result A := Revert "Order not active".
Definition AlreadyRevealed {A} : result A := Revert "Already revealed".
Definition InvalidRequestId {A} : result A := Revert "Invalid request".
Definition InactiveOrder {A} : result A := Revert "Inactive orders".
Definition NotFound {A} : result A := Revert "Match not complete".
Definition ProofVerificationFailed {A} : result A := Revert "InvalidKMSSignatures".
Definition DecodeFailed {A} : result A := Revert EmptyString.

(** ** Storage *)

Module EncryptedOrder.
Record t {L : FHE.Lib} : Type := mk {
  id : Z;
  trader : Z;
  encryptedPrice : euint32;
  encryptedAmount : euint32;
  encryptedType : euint32;
  timestamp : Z;
  isActive : bool;
}.
Definition zero {L : FHE.Lib} : t :=
  mk L 0 0 FHE.zeroHandle FHE.zeroHandle FHE.zeroHandle 0 false.
Definition set_isActive {L : FHE.Lib} (b : bool) (o : t) : t :=
  mk L (id o) (trader o) (encryptedPrice o) (encryptedAmount o) (encryptedType o)
     (timestamp o) b.
End EncryptedOrder.

Module MatchResult.
Record t {L : FHE.Lib} : Type := mk {
  buyOrderId : Z;
  sellOrderId : Z;
  encryptedPrice : euint32;
  encryptedAmount : euint32;
  isComplete : bool;
}.
Definition zero {L : FHE.Lib} : t := mk L 0 0 FHE.zeroHandle FHE.zeroHandle false.
End MatchResult.

Module DecryptedOrder.
Record t : Type := mk {
  price : Z;
  amount : Z;
  orderType : Z;
  isRevealed : bool;
}.
Definition zero : t := mk 0 0 0 false.
End DecryptedOrder.

Record State {L : FHE.Lib} : Type := mkState {
  orderCount : Z;
  encryptedOrders : gmap Z EncryptedOrder.t;
  matchResults : gmap Z MatchResult.t;
  decryptedOrders : gmap Z DecryptedOrder.t;
  encryptedBuyPrices : list euint32;
  encryptedSellPrices : list euint32;
  requestToOrderId : gmap Z Z;
}.

(** The callbacks a decryption request names. *)
Inductive Selector : Type := decryptOrder_selector | decryptMatchResult_selector.

(** What a call leaves behind besides storage: the events it emits and the
    requests it sends to the decryption oracle. *)
Inductive Log : Type :=
| OrderSubmitted (id timestamp : Z)
| OrderMatched (buyId sellId : Z)
| OrderRevealed (id : Z)
| DecryptionRequested (ciphertexts : list Z) (callback : Selector) (requestId : Z).

(** ** The contract *)
Section Contract.

Context {L : FHE.Lib}.

(** Reads of the mappings: a key never written reads as the zero value. *)
Definition orderAt (st : State) (id : Z) : EncryptedOrder.t :=
  default EncryptedOrder.zero (encryptedOrders st !! id).

Definition shadowAt (st : State) (id : Z) : DecryptedOrder.t :=
  default DecryptedOrder.zero (decryptedOrders st !! id).

Definition matchAt (st : State) (matchId : Z) : MatchResult.t :=
  default MatchResult.zero (matchResults st !! matchId).

Definition requestAt (st : State) (requestId : Z) : Z :=
  default 0 (requestToOrderId st !! requestId).

(** The storage of a freshly deployed contract. *)
Definition initial : State := mkState L 0 ∅ ∅ ∅ [] [] ∅.

(** Writes, one per storage variable the contract assigns. *)
Definition set_order (id : Z) (o : EncryptedOrder.t) (st : State) : State :=
  mkState L (orderCount st) (<[id := o]> (encryptedOrders st)) (matchResults st)
          (decryptedOrders st) (encryptedBuyPrices st) (encryptedSellPrices st)
          (requestToOrderId st).

Definition set_shadow (id : Z) (d : DecryptedOrder.t) (st : State) : State :=
  mkState L (orderCount st) (encryptedOrders st) (matchResults st)
          (<[id := d]> (decryptedOrders st)) (encryptedBuyPrices st)
          (encryptedSellPrices st) (requestToOrderId st).

Definition set_match (matchId : Z) (m : MatchResult.t) (st : State) : State :=
  mkState L (orderCount st) (encryptedOrders st) (<[matchId := m]> (matchResults st))
          (decryptedOrders st) (encryptedBuyPrices st) (encryptedSellPrices st)
          (requestToOrderId st).

Definition set_request (requestId target : Z) (st : State) : State :=
  mkState L (orderCount st) (encryptedOrders st) (matchResults st)
          (decryptedOrders st) (encryptedBuyPrices st) (encryptedSellPrices st)
          (<[requestId := target]> (requestToOrderId st)).

Definition set_orderCount (n : Z) (st : State) : State :=
  mkState L n (encryptedOrders st) (matchResults st)
          (decryptedOrders st) (encryptedBuyPrices st) (encryptedSellPrices st)
          (requestToOrderId st).

Definition set_books (buys sells : list euint32) (st : State) : State :=
  mkState L (orderCount st) (encryptedOrders st) (matchResults st)
          (decryptedOrders st) buys sells (requestToOrderId st).

(** [encryptedOrders[id].isActive = false] *)
Definition deactivate (id : Z) (st : State) : State :=
  set_order id (EncryptedOrder.set_isActive false (orderAt st id)) st.

(** [modifier onlyTrader(orderId)] *)
Definition onlyTrader (sender orderId : Z) (st : State) : result unit :=
  require (sender =? EncryptedOrder.trader (orderAt st orderId)) "Not order owner".

(** [uint256(keccak256(abi.encodePacked(buyOrderId, sellOrderId)))] *)
Definition matchIdOf (buyOrderId sellOrderId : Z) : Z :=
  be_value (Keccak.keccak256 (Abi.encodePacked buyOrderId sellOrderId)).

Definition submitEncryptedOrder (sender now : Z)
    (encryptedPrice encryptedAmount encryptedType : euint32)
    (st : State) : result (State * list Log) :=
  if uint256_max <=? orderCount st then Panic PANIC_ARITHMETIC else
  let newId := orderCount st + 1 in
  let st := set_orderCount newId st in
  let st := set_order newId
              (EncryptedOrder.mk L newId sender encryptedPrice encryptedAmount
                                 encryptedType now true) st in
  let st := set_shadow newId (DecryptedOrder.mk 0 0 0 false) st in
  let isBuy := FHE.eq encryptedType (FHE.asEuint32 0) in
  let isSell := FHE.eq encryptedType (FHE.asEuint32 1) in
  let st := set_books
              (encryptedBuyPrices st ++ [FHE.select isBuy encryptedPrice (FHE.asEuint32 0)])
              (encryptedSellPrices st ++ [FHE.select isSell encryptedPrice (FHE.asEuint32 0)])
              st in
  Ok (st, [OrderSubmitted newId now]).

Definition matchOrders (sender : Z) (st : State) : result (State * list Log) :=
  Ok (st, [OrderMatched 0 0]).

Definition storeMatchResult (sender : Z) (buyOrderId sellOrderId : Z)
    (encryptedPrice encryptedAmount : euint32)
    (st : State) : result (State * list Log) :=
  let matchId := matchIdOf buyOrderId sellOrderId in
  let st := set_match matchId
              (MatchResult.mk L buyOrderId sellOrderId encryptedPrice encryptedAmount true)
              st in
  let st := deactivate buyOrderId st in
  let st := deactivate sellOrderId st in
  Ok (st, [OrderMatched buyOrderId sellOrderId]).

(** [reqId] is the id [FHE.requestDecryption] returns: the oracle picks it. *)
Definition requestOrderDecryption (sender : Z) (orderId : Z) (reqId : Z)
    (st : State) : result (State * list Log) :=
  _ ← onlyTrader sender orderId st;
  let order := orderAt st orderId in
  _ ← require (negb (DecryptedOrder.isRevealed (shadowAt st orderId))) "Already revealed";
  let ciphertexts :=
    [ FHE.toBytes32 (EncryptedOrder.encryptedPrice order);
      FHE.toBytes32 (EncryptedOrder.encryptedAmount order);
      FHE.toBytes32 (EncryptedOrder.encryptedType order) ] in
  Ok (set_request reqId orderId st,
      [DecryptionRequested ciphertexts decryptOrder_selector reqId]).

(** [results[i]] of a memory array: out of range is a panic. *)
Definition index (results : list Z) (i : nat) : result Z :=
  match results !! i with
  | Some v => Ok v
  | None => Panic PANIC_INDEX
  end.

Definition decryptOrder (sender : Z) (requestId : Z) (cleartexts proof : list byte)
    (st : State) : result (State * list Log) :=
  let orderId := requestAt st requestId in
  _ ← require (negb (orderId =? 0)) "Invalid request";
  let dOrder := shadowAt st orderId in
  _ ← require (negb (DecryptedOrder.isRevealed dOrder)) "Already revealed";
  _ ← require (FHE.checkSignatures requestId cleartexts proof) "InvalidKMSSignatures";
  match Abi.decode_uint32_array cleartexts with
  | None => DecodeFailed
  | Some results =>
      price ← index results 0;
      amount ← index results 1;
      orderType ← index results 2;
      Ok (set_shadow orderId (DecryptedOrder.mk price amount (orderType mod 256) true) st,
          [OrderRevealed orderId])
  end.

(** One iteration of each loop of [findBestBidAsk]. *)
Definition bidStep (st : State) (bestBid : euint32) (i : nat) : euint32 :=
  let o := orderAt st (Z.of_nat i + 1) in
  let candidate := nth i (encryptedBuyPrices st) FHE.zeroHandle in
  let isActive := FHE.asEbool (EncryptedOrder.isActive o) in
  let isBuy := FHE.eq (EncryptedOrder.encryptedType o) (FHE.asEuint32 0) in
  let isBetterBid := FHE.gt candidate bestBid in
  let shouldUpdateBid := FHE.and isBetterBid (FHE.and isActive isBuy) in
  FHE.select shouldUpdateBid candidate bestBid.

Definition askStep (st : State) (bestAsk : euint32) (i : nat) : euint32 :=
  let o := orderAt st (Z.of_nat i + 1) in
  let candidate := nth i (encryptedSellPrices st) FHE.zeroHandle in
  let isActive := FHE.asEbool (EncryptedOrder.isActive o) in
  let isSell := FHE.eq (EncryptedOrder.encryptedType o) (FHE.asEuint32 1) in
  let isBetterAsk := FHE.lt candidate bestAsk in
  let shouldUpdateAsk := FHE.and isBetterAsk (FHE.and isActive isSell) in
  FHE.select shouldUpdateAsk candidate bestAsk.

Definition findBestBidAsk (st : State) : euint32 * euint32 :=
  let bestBid := fold_left (bidStep st) (seq 0 (length (encryptedBuyPrices st)))
                           (FHE.asEuint32 0) in
  let bestAsk := fold_left (askStep st) (seq 0 (length (encryptedSellPrices st)))
                           (FHE.asEuint32 uint32_max) in
  (bestBid, bestAsk).

Definition canMatchOrders (buyId sellId : Z) (st : State) : result ebool :=
  let buy := orderAt st buyId in
  let sell := orderAt st sellId in
  _ ← require (EncryptedOrder.isActive buy && EncryptedOrder.isActive sell) "Inactive orders";
  let isBuy := FHE.eq (EncryptedOrder.encryptedType buy) (FHE.asEuint32 0) in
  let isSell := FHE.eq (EncryptedOrder.encryptedType sell) (FHE.asEuint32 1) in
  let validTypes := FHE.and isBuy isSell in
  let priceMatch := FHE.ge (EncryptedOrder.encryptedPrice buy)
                           (EncryptedOrder.encryptedPrice sell) in
  let amountMatch := FHE.ge (EncryptedOrder.encryptedAmount buy)
                            (EncryptedOrder.encryptedAmount sell) in
  Ok (FHE.and validTypes (FHE.and priceMatch amountMatch)).

Definition calculateExecutionPrice (buyId sellId : Z) (st : State) : euint32 :=
  let buy := orderAt st buyId in
  let sell := orderAt st sellId in
  let sum := FHE.add (EncryptedOrder.encryptedPrice buy)
                     (EncryptedOrder.encryptedPrice sell) in
  FHE.div sum (FHE.asEuint32 2).

Definition calculateExecutionAmount (buyId sellId : Z) (st : State) : euint32 :=
  let buy := orderAt st buyId in
  let sell := orderAt st sellId in
  let buySmaller := FHE.lt (EncryptedOrder.encryptedAmount buy)
                           (EncryptedOrder.encryptedAmount sell) in
  FHE.select buySmaller (EncryptedOrder.encryptedAmount buy)
             (EncryptedOrder.encryptedAmount sell).

Definition getEncryptedOrder (orderId : Z) (st : State)
    : euint32 * euint32 * euint32 * bool :=
  let order := orderAt st orderId in
  (EncryptedOrder.encryptedPrice order, EncryptedOrder.encryptedAmount order,
   EncryptedOrder.encryptedType order, EncryptedOrder.isActive order).

Definition getDecryptedOrder (sender : Z) (orderId : Z) (st : State)
    : result (Z * Z * Z * bool) :=
  _ ← onlyTrader sender orderId st;
  let order := shadowAt st orderId in
  Ok (DecryptedOrder.price order, DecryptedOrder.amount order,
      DecryptedOrder.orderType order, DecryptedOrder.isRevealed order).

(** [book[index] = FHE.asEuint32(0)] under the guard [index < book.length]. *)
Definition clearEntry (idx : Z) (book : list euint32) : list euint32 :=
  if idx <? Z.of_nat (length book)
  then <[Z.to_nat idx := FHE.asEuint32 0]> book
  else book.

Definition cancelOrder (sender : Z) (orderId : Z)
    (st : State) : result (State * list Log) :=
  _ ← onlyTrader sender orderId st;
  _ ← require (EncryptedOrder.isActive (orderAt st orderId)) "Order not active";
  let st := deactivate orderId st in
  if orderId <? 1 then Panic PANIC_ARITHMETIC else
  let idx := orderId - 1 in
  let st := set_books (clearEntry idx (encryptedBuyPrices st))
                      (clearEntry idx (encryptedSellPrices st)) st in
  Ok (st, []).

Definition requestMatchDecryption (sender : Z) (buyId sellId : Z) (reqId : Z)
    (st : State) : result (State * list Log) :=
  let matchId := matchIdOf buyId sellId in
  let result := matchAt st matchId in
  _ ← require (MatchResult.isComplete result) "Match not complete";
  let ciphertexts :=
    [ FHE.toBytes32 (MatchResult.encryptedPrice result);
      FHE.toBytes32 (MatchResult.encryptedAmount result) ] in
  Ok (set_request reqId matchId st,
      [DecryptionRequested ciphertexts decryptMatchResult_selector reqId]).

(** The body ends after decoding: the decoded [results] are neither stored
    nor emitted. *)
Definition decryptMatchResult (sender : Z) (requestId : Z) (cleartexts proof : list byte)
    (st : State) : result (State * list Log) :=
  let matchId := requestAt st requestId in
  _ ← require (negb (matchId =? 0)) "Invalid request";
  _ ← require (FHE.checkSignatures requestId cleartexts proof) "InvalidKMSSignatures";
  match Abi.decode_uint32_array cleartexts with
  | None => DecodeFailed
  | Some results => Ok (st, [])
  end.

End Contract.

(** ** Transactions and reachable states *)
Section Execution.

Context {L : FHE.Lib}.

(** The state-changing entry points, with the arguments of one call. *)
Inductive Call : Type :=
| SubmitEncryptedOrder (now : Z) (encryptedPrice encryptedAmount encryptedType : euint32)
| MatchOrders
| StoreMatchResult (buyOrderId sellOrderId : Z) (encryptedPrice encryptedAmount : euint32)
| RequestOrderDecryption (orderId reqId : Z)
| DecryptOrder (requestId : Z) (cleartexts proof : list byte)
| CancelOrder (orderId : Z)
| RequestMatchDecryption (buyId sellId reqId : Z)
| DecryptMatchResult (requestId : Z) (cleartexts proof : list byte).

Definition exec (sender : Z) (c : Call) (st : State) : result (State * list Log) :=
  match c with
  | SubmitEncryptedOrder now p a t => submitEncryptedOrder sender now p a t st
  | MatchOrders => matchOrders sender st
  | StoreMatchResult b s p a => storeMatchResult sender b s p a st
  | RequestOrderDecryption orderId reqId => requestOrderDecryption sender orderId reqId st
  | DecryptOrder requestId cleartexts proof => decryptOrder sender requestId cleartexts proof st
  | CancelOrder orderId => cancelOrder sender orderId st
  | RequestMatchDecryption b s reqId => requestMatchDecryption sender b s reqId st
  | DecryptMatchResult requestId cleartexts proof =>
      decryptMatchResult sender requestId cleartexts proof st
  end.

(** A state is reachable when successful calls lead to it from deployment;
    a call that reverts or panics leaves the state where it was. *)
Inductive reachable : State -> Prop :=
| reachable_initial : reachable initial
| reachable_call (st st' : State) (sender : Z) (c : Call) (logs : list Log) :
    reachable st -> exec sender c st = Ok (st', logs) -> reachable st'.

(** Ids handed out so far: [1 .. orderCount]. *)
Definition orderIds (st : State) : list Z :=
  map (fun i => Z.of_nat i + 1) (seq 0 (Z.to_nat (orderCount st))).

(** Structural invariant of the ledger and the book index. *)
Record wf (st : State) : Prop := {
  wf_count : 0 <= orderCount st <= uint256_max;
  wf_buys : length (encryptedBuyPrices st) = Z.to_nat (orderCount st);
  wf_sells : length (encryptedSellPrices st) = Z.to_nat (orderCount st);
  wf_active : forall id,
    EncryptedOrder.isActive (orderAt st id) = true -> 1 <= id <= orderCount st;
}.

End Execution.

(** ** A plaintext implementation of the FHE interface

    Ciphertexts are their plaintexts.  It shows the laws are satisfiable and
    gives the concrete runs below something to compute with.  The toy oracle
    signs a result by repeating the request id in front of the cleartexts. *)
Module Clear.

Definition norm (v : Z) : Z := v mod 2 ^ 32.

Fixpoint bytes_eqb (a b : list byte) : bool :=
  match a, b with
  | [], [] => true
  | x :: a', y :: b' => Byte.eqb x y && bytes_eqb a' b'
  | _, _ => false
  end.

Definition sign (requestId : Z) (cleartexts : list byte) : list byte :=
  be_bytes 32 requestId ++ cleartexts.

Definition lib : FHE.Lib := {|
  FHE.euint32 := Z;
  FHE.ebool := bool;
  FHE.zeroHandle := 0;
  FHE.asEuint32 := norm;
  FHE.asEbool := fun b => b;
  FHE.eq := fun a b => norm a =? norm b;
  FHE.gt := fun a b => norm b <? norm a;
  FHE.lt := fun a b => norm a <? norm b;
  FHE.ge := fun a b => norm b <=? norm a;
  FHE.and := andb;
  FHE.select := fun c a b => if c then norm a else norm b;
  FHE.add := fun a b => norm (norm a + norm b);
  FHE.div := fun a b => norm a / norm b;
  FHE.toBytes32 := fun a => a;
  FHE.checkSignatures := fun requestId cleartexts proof =>
    bytes_eqb proof (sign requestId cleartexts);
|}.

Definition plain : FHE.Plain lib := {|
  FHE.decrypt := norm : @FHE.euint32 lib -> Z;
  FHE.decryptBool := (fun b => b) : @FHE.ebool lib -> bool;
|}.

End Clear.

(** ** The plaintext reading of the ledger

    What the spec says the evaluator computes, written over the decrypted
    fields of the orders; the theorems compare the ciphertexts the contract
    returns with these. *)
Section PlainView.

Context {L : FHE.Lib} {P : FHE.Plain L}.

Definition priceOf (st : State) (id : Z) : Z :=
  FHE.decrypt (EncryptedOrder.encryptedPrice (orderAt st id)).

Definition amountOf (st : State) (id : Z) : Z :=
  FHE.decrypt (EncryptedOrder.encryptedAmount (orderAt st id)).

Definition sideOf (st : State) (id : Z) : Z :=
  FHE.decrypt (EncryptedOrder.encryptedType (orderAt st id)).

Definition isActiveBuy (st : State) (id : Z) : bool :=
  EncryptedOrder.isActive (orderAt st id) && (sideOf st id =? 0).

Definition isActiveSell (st : State) (id : Z) : bool :=
  EncryptedOrder.isActive (orderAt st id) && (sideOf st id =? 1).

(** The highest price among the active buy orders of [ids], from zero. *)
Definition bestBidOver (st : State) (ids : list Z) : Z :=
  fold_right Z.max 0 (map (priceOf st) (List.filter (isActiveBuy st) ids)).

(** The lowest price among the active sell orders of [ids], from the
    largest [uint32]. *)
Definition bestAskOver (st : State) (ids : list Z) : Z :=
  fold_right Z.min uint32_max (map (priceOf st) (List.filter (isActiveSell st) ids)).

(** Every id handed out except [k]. *)
Definition otherIds (st : State) (k : Z) : list Z :=
  List.filter (fun id => negb (id =? k)) (orderIds st).

(** The four conditions of a match, on plaintexts. *)
Definition canMatchPlain (st : State) (buyId sellId : Z) : bool :=
  (sideOf st buyId =? 0) && (sideOf st sellId =? 1)
  && (priceOf st sellId <=? priceOf st buyId)
  && (amountOf st sellId <=? amountOf st buyId).

(** The midpoint of two prices, rounded toward zero. *)
Definition midpoint (buyPrice sellPrice : Z) : Z :=
  Z.quot (buyPrice + sellPrice) 2.

(** The book entries agree with the orders they index, for as long as the
    order is active. *)
Definition book_ok (st : State) : Prop :=
  forall i : nat, (i < length (encryptedBuyPrices st))%nat ->
    let id := Z.of_nat i + 1 in
    EncryptedOrder.isActive (orderAt st id) = true ->
    FHE.decrypt (nth i (encryptedBuyPrices st) FHE.zeroHandle)
      = (if sideOf st id =? 0 then priceOf st id else 0)
    /\ FHE.decrypt (nth i (encryptedSellPrices st) FHE.zeroHandle)
      = (if sideOf st id =? 1 then priceOf st id else 0).

End PlainView.

(** ** Concrete runs over the plaintext implementation *)
Module Scenario.

Definition alice : Z := 0xA11CE.
Definition bob : Z := 0xB0B.
Definition mallory : Z := 0xBAD.

Definition run (calls : list (Z * Call (L := Clear.lib))) (st : State (L := Clear.lib))
    : result (State (L := Clear.lib)) :=
  fold_left (fun acc call =>
               s ← acc;
               r ← exec (fst call) (snd call) s;
               Ok (fst r))
            calls (Ok st).

Definition state_after (calls : list (Z * Call (L := Clear.lib))) : State (L := Clear.lib) :=
  match run calls (initial (L := Clear.lib)) with
  | Ok s => s
  | _ => initial (L := Clear.lib)
  end.

(** The spec's scenario: a buy at 2500 and a sell at 2400, two units each. *)
Definition buy_2500 : Call (L := Clear.lib) := SubmitEncryptedOrder (L := Clear.lib) 1000 2500 2 0.
Definition sell_2400 : Call (L := Clear.lib) := SubmitEncryptedOrder (L := Clear.lib) 1001 2400 2 1.

Definition two_orders : State (L := Clear.lib) :=
  state_after [(alice, buy_2500); (bob, sell_2400)].

(** A single buy order at the largest price. *)
Definition one_bid : State (L := Clear.lib) :=
  state_after [(alice, SubmitEncryptedOrder (L := Clear.lib) 1000 uint32_max 1 0)].

(** Two orders priced at 2^31 each. *)
Definition high_prices : State (L := Clear.lib) :=
  state_after [(alice, SubmitEncryptedOrder (L := Clear.lib) 1000 (2 ^ 31) 1 0);
               (bob, SubmitEncryptedOrder (L := Clear.lib) 1001 (2 ^ 31) 1 1)].

(** Alice's order 1 with a pending reveal request, oracle id 7. *)
Definition order_pending : State (L := Clear.lib) :=
  state_after [(alice, buy_2500); (bob, sell_2400);
               (alice, RequestOrderDecryption (L := Clear.lib) 1 7)].

(** The match of orders 1 and 2 committed, with a pending reveal request,
    oracle id 9. *)
Definition match_pending : State (L := Clear.lib) :=
  state_after [(alice, buy_2500); (bob, sell_2400);
               (alice, StoreMatchResult (L := Clear.lib) 1 2 2450 2);
               (alice, RequestMatchDecryption (L := Clear.lib) 1 2 9)].

Definition order_cleartexts : list byte := Abi.encode_uint32_array [2500; 2; 0].
Definition match_cleartexts : list byte := Abi.encode_uint32_array [2450; 2].

End Scenario.

(** ** Runs of calls *)
Section Runs.

Context {L : FHE.Lib}.

(** [leads_to st st']: some sequence of successful calls, by any senders,
    takes the contract from [st] to [st']. *)
Inductive leads_to : State -> State -> Prop :=
| leads_to_refl (st : State) : leads_to st st
| leads_to_call (st st1 st' : State) (sender : Z) (c : Call) (logs : list Log) :
    leads_to st st1 -> exec sender c st1 = Ok (st', logs) -> leads_to st st'.

End Runs.

(** ** Longer concrete runs *)
Module History.

(** The state [calls] lead to from [st]; [st] itself if one of them fails. *)
Definition after (calls : list (Z * Call (L := Clear.lib))) (st : State (L := Clear.lib))
    : State (L := Clear.lib) :=
  match Scenario.run calls st with
  | Ok s => s
  | _ => st
  end.

(** The spec's two orders, then order 1 cancelled by its trader. *)
Definition cancelled : State (L := Clear.lib) :=
  after [(Scenario.alice, CancelOrder (L := Clear.lib) 1)] Scenario.two_orders.

(** The two orders committed as a match by a third party. *)
Definition matched : State (L := Clear.lib) :=
  after [(Scenario.mallory, StoreMatchResult (L := Clear.lib) 1 2 2450 2)]
        Scenario.two_orders.

(** Order 1 revealed through request 7. *)
Definition revealed : State (L := Clear.lib) :=
  after [(Scenario.alice, RequestOrderDecryption (L := Clear.lib) 1 7);
         (Scenario.mallory,
          DecryptOrder (L := Clear.lib) 7 Scenario.order_cleartexts
            (Clear.sign 7 Scenario.order_cleartexts))]
        Scenario.two_orders.

(** After the reveal: a third order, and order 1 cancelled. *)
Definition revealed_later : State (L := Clear.lib) :=
  after [(Scenario.bob, SubmitEncryptedOrder (L := Clear.lib) 1002 2600 5 0);
         (Scenario.alice, CancelOrder (L := Clear.lib) 1)]
        revealed.

(** After the match: a reveal request for order 1 and a third order. *)
Definition matched_later : State (L := Clear.lib) :=
  after [(Scenario.alice, RequestOrderDecryption (L := Clear.lib) 1 7);
         (Scenario.bob, SubmitEncryptedOrder (L := Clear.lib) 1002 2600 5 0)]
        matched.

(** After the cancel: a third order, and order 2 committed against it. *)
Definition cancelled_later : State (L := Clear.lib) :=
  after [(Scenario.bob, SubmitEncryptedOrder (L := Clear.lib) 1002 2600 5 0);
         (Scenario.mallory, StoreMatchResult (L := Clear.lib) 3 2 2500 2)]
        cancelled.

(** Three buy orders at 100, 300 and 200 and a sell order at 250. *)
Definition four_orders : State (L := Clear.lib) :=
  Scenario.state_after
    [(Scenario.alice, SubmitEncryptedOrder (L := Clear.lib) 1000 100 1 0);
     (Scenario.bob, SubmitEncryptedOrder (L := Clear.lib) 1001 300 1 0);
     (Scenario.alice, SubmitEncryptedOrder (L := Clear.lib) 1002 200 1 0);
     (Scenario.bob, SubmitEncryptedOrder (L := Clear.lib) 1003 250 1 1)].

End History.

(** * Properties *)

(** ** Test vector and the plaintext implementation *)

(** The digest of the empty string, the usual test vector. *)
Example keccak256_empty :
  be_value (Keccak.keccak256 []) =
  0xc5d2460186f7233c927e7db2dcc703c0e500b653ca82273b7bfad8045d85a470.
Proof. vm_compute. reflexivity. Qed.

Lemma norm_range v : 0 <= Clear.norm v <= uint32_max.
Proof.
  unfold Clear.norm, uint32_max.
  pose proof (Z.mod_pos_bound v (2 ^ 32) ltac:(lia)). lia.
Qed.

Lemma norm_small v : 0 <= v <= uint32_max -> Clear.norm v = v.
Proof. unfold Clear.norm, uint32_max. intros. apply Z.mod_small. lia. Qed.

Lemma norm_idem v : Clear.norm (Clear.norm v) = Clear.norm v.
Proof. apply norm_small, norm_range. Qed.

Lemma clear_laws : FHE.Laws Clear.lib Clear.plain.
Proof.
  split; cbn.
  - apply norm_range.
  - intros v Hv. rewrite norm_idem. by apply norm_small.
  - done.
  - done.
  - done.
  - done.
  - done.
  - done.
  - intros [] a b; apply norm_idem.
  - intros a b. apply norm_idem.
  - intros a b Hb. apply norm_small.
    pose proof (norm_range a) as Ha. pose proof (norm_range b) as Hb'.
    split.
    + apply Z.div_pos; lia.
    + assert (Clear.norm a / Clear.norm b <= Clear.norm a); [|lia].
      apply Z.div_le_upper_bound; [lia|]. nia.
Qed.

(** ** The result monad *)

Lemma bind_Ok {A B} (m : result A) (f : A -> result B) (b : B) :
  m ≫= f = Ok b -> exists a, m = Ok a /\ f a = Ok b.
Proof. destruct m; cbn; [eauto | discriminate..]. Qed.

Lemma bind_require_Ok {B} cond reason (k : unit -> result B) (b : B) :
  require cond reason ≫= k = Ok b -> cond = true /\ k tt = Ok b.
Proof. destruct cond; cbn; [auto | discriminate]. Qed.

Lemma bind_require_true {B} reason (k : unit -> result B) :
  require true reason ≫= k = k tt.
Proof. reflexivity. Qed.

Lemma bind_require_false {B} reason (k : unit -> result B) :
  require false reason ≫= k = Revert reason.
Proof. reflexivity. Qed.

(** Closes a closed equation by evaluating both sides in the VM; unlike
    [vm_compute] it never prints the normal form of a state back. *)
Ltac vm_refl :=
  match goal with
  | |- _ = ?r => vm_cast_no_check (@eq_refl _ r)
  end.

(** Peels the [require]s off a successful call. *)
Ltac inv_require H :=
  repeat match type of H with
         | require _ _ ≫= _ = Ok _ =>
             let Hc := fresh "Hreq" in
             apply bind_require_Ok in H; destruct H as [Hc H]
         end.

(** ** Reads after writes *)
Section Storage.

Context {L : FHE.Lib}.
Implicit Types st : State.

Lemma orderAt_set_order id o st id' :
  orderAt (set_order id o st) id' = if decide (id = id') then o else orderAt st id'.
Proof.
  unfold orderAt, set_order; cbn. rewrite lookup_insert.
  by case_decide.
Qed.

Lemma orderAt_deactivate id st id' :
  orderAt (deactivate id st) id'
  = if decide (id = id') then EncryptedOrder.set_isActive false (orderAt st id)
    else orderAt st id'.
Proof. apply orderAt_set_order. Qed.

Lemma isActive_deactivate id st id' :
  EncryptedOrder.isActive (orderAt (deactivate id st) id')
  = EncryptedOrder.isActive (orderAt st id') && negb (id' =? id).
Proof.
  rewrite orderAt_deactivate. case_decide as Hid.
  - subst. rewrite Z.eqb_refl, andb_false_r. done.
  - assert ((id' =? id) = false) as -> by lia. by rewrite andb_true_r.
Qed.

Lemma shadowAt_set_shadow id d st id' :
  shadowAt (set_shadow id d st) id' = if decide (id = id') then d else shadowAt st id'.
Proof.
  unfold shadowAt, set_shadow; cbn. rewrite lookup_insert.
  by case_decide.
Qed.

Lemma matchAt_set_match k m st k' :
  matchAt (set_match k m st) k' = if decide (k = k') then m else matchAt st k'.
Proof.
  unfold matchAt, set_match; cbn. rewrite lookup_insert.
  by case_decide.
Qed.

Lemma requestAt_set_request r target st r' :
  requestAt (set_request r target st) r'
  = if decide (r = r') then target else requestAt st r'.
Proof.
  unfold requestAt, set_request; cbn. rewrite lookup_insert.
  by case_decide.
Qed.

Lemma length_clearEntry idx (book : list euint32) :
  length (clearEntry idx book) = length book.
Proof. unfold clearEntry. case_match; [apply length_insert | done]. Qed.

Lemma clearEntry_lookup idx (book : list euint32) :
  0 <= idx < Z.of_nat (length book) ->
  clearEntry idx book !! Z.to_nat idx = Some (FHE.asEuint32 0).
Proof.
  intros Hidx. unfold clearEntry.
  assert ((idx <? Z.of_nat (length book)) = true) as -> by lia.
  apply list_lookup_insert_eq. lia.
Qed.

Lemma clearEntry_lookup_ne idx (book : list euint32) (i : nat) :
  i <> Z.to_nat idx -> clearEntry idx book !! i = book !! i.
Proof.
  intros Hi. unfold clearEntry. case_match; [|done].
  by apply list_lookup_insert_ne.
Qed.

End Storage.

(** ** What a successful call did *)
Section Calls.

Context {L : FHE.Lib}.
Implicit Types st : State.

Lemma submitEncryptedOrder_Ok sender now p a t st st' logs :
  submitEncryptedOrder sender now p a t st = Ok (st', logs) ->
  orderCount st < uint256_max
  /\ logs = [OrderSubmitted (orderCount st + 1) now]
  /\ st' = set_books
       (encryptedBuyPrices st
          ++ [FHE.select (FHE.eq t (FHE.asEuint32 0)) p (FHE.asEuint32 0)])
       (encryptedSellPrices st
          ++ [FHE.select (FHE.eq t (FHE.asEuint32 1)) p (FHE.asEuint32 0)])
       (set_shadow (orderCount st + 1) (DecryptedOrder.mk 0 0 0 false)
          (set_order (orderCount st + 1)
             (EncryptedOrder.mk L (orderCount st + 1) sender p a t now true)
             (set_orderCount (orderCount st + 1) st))).
Proof.
  unfold submitEncryptedOrder. case_match eqn:Hmax; [discriminate|].
  intros [= <- <-]. split; [lia|]. done.
Qed.

Lemma storeMatchResult_Ok sender b s p a st st' logs :
  storeMatchResult sender b s p a st = Ok (st', logs) ->
  logs = [OrderMatched b s]
  /\ st' = deactivate s (deactivate b
             (set_match (matchIdOf b s) (MatchResult.mk L b s p a true) st)).
Proof. unfold storeMatchResult. by intros [= <- <-]. Qed.

Lemma requestOrderDecryption_Ok sender orderId reqId st st' logs :
  requestOrderDecryption sender orderId reqId st = Ok (st', logs) ->
  sender = EncryptedOrder.trader (orderAt st orderId)
  /\ DecryptedOrder.isRevealed (shadowAt st orderId) = false
  /\ st' = set_request reqId orderId st.
Proof.
  unfold requestOrderDecryption, onlyTrader. intros H. inv_require H.
  injection H as <- <-. split; [lia|]. split; [|done].
  by apply negb_true_iff.
Qed.

Lemma decryptOrder_Ok sender requestId cleartexts proof st st' logs :
  decryptOrder sender requestId cleartexts proof st = Ok (st', logs) ->
  let orderId := requestAt st requestId in
  orderId <> 0
  /\ DecryptedOrder.isRevealed (shadowAt st orderId) = false
  /\ FHE.checkSignatures requestId cleartexts proof = true
  /\ exists price amount orderType rest,
       Abi.decode_uint32_array cleartexts = Some (price :: amount :: orderType :: rest)
       /\ st' = set_shadow orderId
                  (DecryptedOrder.mk price amount (orderType mod 256) true) st
       /\ logs = [OrderRevealed orderId].
Proof.
  unfold decryptOrder. intros H. inv_require H.
  destruct (Abi.decode_uint32_array cleartexts) as [results|]; [|discriminate].
  destruct results as [|price [|amount [|orderType rest]]]; try discriminate.
  cbn in H. injection H as <- <-.
  split; [intros Heq; rewrite Heq in *; discriminate|].
  split; [by apply negb_true_iff|]. split; [done|].
  by exists price, amount, orderType, rest.
Qed.

Lemma cancelOrder_Ok sender orderId st st' logs :
  cancelOrder sender orderId st = Ok (st', logs) ->
  sender = EncryptedOrder.trader (orderAt st orderId)
  /\ EncryptedOrder.isActive (orderAt st orderId) = true
  /\ 1 <= orderId
  /\ logs = []
  /\ st' = set_books (clearEntry (orderId - 1) (encryptedBuyPrices st))
                     (clearEntry (orderId - 1) (encryptedSellPrices st))
                     (deactivate orderId st).
Proof.
  unfold cancelOrder, onlyTrader. intros H. inv_require H.
  case_match eqn:Hlt; [discriminate|]. injection H as <- <-.
  repeat split; [lia|done|lia].
Qed.

Lemma requestMatchDecryption_Ok sender b s reqId st st' logs :
  requestMatchDecryption sender b s reqId st = Ok (st', logs) ->
  MatchResult.isComplete (matchAt st (matchIdOf b s)) = true
  /\ st' = set_request reqId (matchIdOf b s) st.
Proof.
  unfold requestMatchDecryption. intros H. inv_require H.
  by injection H as <- <-.
Qed.

Lemma decryptMatchResult_Ok sender requestId cleartexts proof st st' logs :
  decryptMatchResult sender requestId cleartexts proof st = Ok (st', logs) ->
  requestAt st requestId <> 0
  /\ FHE.checkSignatures requestId cleartexts proof = true
  /\ st' = st /\ logs = [].
Proof.
  unfold decryptMatchResult. intros H. inv_require H.
  destruct (Abi.decode_uint32_array cleartexts); [|discriminate].
  injection H as <- <-.
  split; [intros Heq; rewrite Heq in *; discriminate|]. done.
Qed.

End Calls.

(** ** The structural invariant *)
Section Invariant.

Context {L : FHE.Lib}.
Implicit Types st : State.

Lemma wf_initial : wf initial.
Proof.
  split; cbn.
  - unfold uint256_max. lia.
  - done.
  - done.
  - intros id. unfold orderAt. cbn. rewrite lookup_empty. done.
Qed.

Lemma wf_deactivate id st : wf st -> wf (deactivate id st).
Proof.
  intros [Hc Hb Hs Ha]. split; try done.
  intros id'. rewrite isActive_deactivate. intros [H _]%andb_true_iff. by apply Ha.
Qed.

Lemma wf_set_match k m st : wf st -> wf (set_match k m st).
Proof. intros [Hc Hb Hs Ha]. by split. Qed.

Lemma wf_set_request r t st : wf st -> wf (set_request r t st).
Proof. intros [Hc Hb Hs Ha]. by split. Qed.

Lemma wf_set_shadow id d st : wf st -> wf (set_shadow id d st).
Proof. intros [Hc Hb Hs Ha]. by split. Qed.

Lemma exec_wf sender c st st' logs :
  wf st -> exec sender c st = Ok (st', logs) -> wf st'.
Proof.
  intros Hwf H. destruct c; cbn in H.
  - apply submitEncryptedOrder_Ok in H as (Hlt & _ & ->).
    destruct Hwf as [Hc Hb Hs Ha]. split; cbn.
    + lia.
    + rewrite length_app, Hb. cbn. lia.
    + rewrite length_app, Hs. cbn. lia.
    + intros id.
      change (EncryptedOrder.isActive
                (orderAt (set_order (orderCount st + 1)
                            (EncryptedOrder.mk L (orderCount st + 1) sender encryptedPrice
                               encryptedAmount encryptedType now true) st) id) = true
              -> 1 <= id <= orderCount st + 1).
      rewrite orderAt_set_order. case_decide as Hid.
      * subst. lia.
      * intros H%Ha. lia.
  - by injection H as <- <-.
  - apply storeMatchResult_Ok in H as [_ ->].
    by apply wf_deactivate, wf_deactivate, wf_set_match.
  - apply requestOrderDecryption_Ok in H as (_ & _ & ->). by apply wf_set_request.
  - apply decryptOrder_Ok in H as (_ & _ & _ & p & a & t & rest & _ & -> & _).
    by apply wf_set_shadow.
  - apply cancelOrder_Ok in H as (_ & _ & _ & _ & ->).
    apply (wf_deactivate orderId) in Hwf. destruct Hwf as [Hc Hb Hs Ha].
    split; cbn; try done.
    + by rewrite length_clearEntry.
    + by rewrite length_clearEntry.
  - apply requestMatchDecryption_Ok in H as [_ ->]. by apply wf_set_request.
  - by apply decryptMatchResult_Ok in H as (_ & _ & -> & _).
Qed.

Lemma reachable_wf st : reachable st -> wf st.
Proof.
  induction 1 as [|st st' sender c logs _ IH Hexec].
  - apply wf_initial.
  - by eapply exec_wf.
Qed.

End Invariant.

(** Every scenario state is a reachable one. *)
Lemma run_reachable calls st st' :
  reachable st -> Scenario.run calls st = Ok st' -> reachable st'.
Proof.
  unfold Scenario.run.
  assert (forall acc, (forall s, acc = Ok s -> reachable s) ->
            fold_left (fun acc call =>
                         s ← acc; r ← exec (fst call) (snd call) s; Ok (fst r))
                      calls acc = Ok st' -> reachable st') as Hgen.
  { induction calls as [|[sender c] calls IH]; intros acc Hacc; cbn.
    - apply Hacc.
    - apply IH. intros s Hs.
      apply bind_Ok in Hs as (s0 & -> & Hs).
      apply bind_Ok in Hs as ([s1 logs] & Hexec & [= <-]).
      eapply reachable_call; [by apply Hacc | exact Hexec]. }
  intros Hst. apply Hgen. by intros s [= <-].
Qed.

Lemma state_after_reachable calls : reachable (Scenario.state_after calls).
Proof.
  unfold Scenario.state_after.
  destruct (Scenario.run calls initial) eqn:Hrun; try apply reachable_initial.
  eapply run_reachable; [apply reachable_initial | exact Hrun].
Qed.

(** ** Cancelling, and revealing after a cancel *)
Section Cancel.

Context {L : FHE.Lib}.
Implicit Types st : State.

(** C5.  In every reachable state, [cancelOrder] reverts with "Not order
    owner" (Unauthorized) unless the caller is the order's trader; for the
    trader it reverts with "Order not active" (NotActive) when the order is
    inactive; otherwise it succeeds, the order keeps its fields except
    [isActive], which is now false, and the entries of both book sequences at
    index [orderId - 1] hold the encrypted zero, every other entry being
    left as it was. *)
Theorem cancelOrder_spec st sender orderId :
  reachable st ->
  let o := orderAt st orderId in
  (sender <> EncryptedOrder.trader o -> cancelOrder sender orderId st = Unauthorized)
  /\ (sender = EncryptedOrder.trader o -> EncryptedOrder.isActive o = false ->
      cancelOrder sender orderId st = NotActive)
  /\ (sender = EncryptedOrder.trader o -> EncryptedOrder.isActive o = true ->
      exists st',
        cancelOrder sender orderId st = Ok (st', [])
        /\ orderAt st' orderId = EncryptedOrder.set_isActive false o
        /\ EncryptedOrder.isActive (orderAt st' orderId) = false
        /\ encryptedBuyPrices st' !! Z.to_nat (orderId - 1) = Some (FHE.asEuint32 0)
        /\ encryptedSellPrices st' !! Z.to_nat (orderId - 1) = Some (FHE.asEuint32 0)
        /\ (forall i : nat, i <> Z.to_nat (orderId - 1) ->
              encryptedBuyPrices st' !! i = encryptedBuyPrices st !! i
              /\ encryptedSellPrices st' !! i = encryptedSellPrices st !! i)).
Proof.
  intros Hreach o. apply reachable_wf in Hreach as [Hc Hb Hs Ha].
  unfold cancelOrder, onlyTrader. fold o. split; [|split].
  - intros Hne. assert ((sender =? EncryptedOrder.trader o) = false) as -> by lia.
    reflexivity.
  - intros -> Hinactive. rewrite Z.eqb_refl, bind_require_true, Hinactive.
    reflexivity.
  - intros -> Hactive. rewrite Z.eqb_refl, bind_require_true, Hactive, bind_require_true.
    destruct (Ha orderId Hactive) as [Hlo Hhi].
    assert ((orderId <? 1) = false) as -> by lia.
    eexists. split; [reflexivity|]. cbn.
    split; [|split; [|split; [|split]]].
    + change (orderAt (deactivate orderId st) orderId = EncryptedOrder.set_isActive false o).
      rewrite orderAt_deactivate. by case_decide.
    + change (EncryptedOrder.isActive (orderAt (deactivate orderId st) orderId) = false).
      rewrite isActive_deactivate, Z.eqb_refl. apply andb_false_r.
    + apply clearEntry_lookup. lia.
    + apply clearEntry_lookup. lia.
    + intros i Hi. split; by apply clearEntry_lookup_ne.
Qed.

(** C9.  Once the trader has cancelled an order whose shadow is not
    revealed, the order is inactive and the trader's [requestOrderDecryption]
    still succeeds: it records the request for that order and sends the
    order's three ciphertexts to the oracle. *)
Theorem requestOrderDecryption_after_cancel st sender orderId st1 logs reqId :
  cancelOrder sender orderId st = Ok (st1, logs) ->
  DecryptedOrder.isRevealed (shadowAt st orderId) = false ->
  EncryptedOrder.isActive (orderAt st1 orderId) = false
  /\ requestOrderDecryption sender orderId reqId st1
     = Ok (set_request reqId orderId st1,
           [DecryptionRequested
              [FHE.toBytes32 (EncryptedOrder.encryptedPrice (orderAt st orderId));
               FHE.toBytes32 (EncryptedOrder.encryptedAmount (orderAt st orderId));
               FHE.toBytes32 (EncryptedOrder.encryptedType (orderAt st orderId))]
              decryptOrder_selector reqId])
  /\ requestAt (set_request reqId orderId st1) reqId = orderId.
Proof.
  intros Hcancel Hshadow.
  apply cancelOrder_Ok in Hcancel as (-> & Hactive & Hlo & _ & ->).
  assert (orderAt (set_books (clearEntry (orderId - 1) (encryptedBuyPrices st))
                     (clearEntry (orderId - 1) (encryptedSellPrices st))
                     (deactivate orderId st)) orderId
          = EncryptedOrder.set_isActive false (orderAt st orderId)) as Horder.
  { change (orderAt (deactivate orderId st) orderId
            = EncryptedOrder.set_isActive false (orderAt st orderId)).
    rewrite orderAt_deactivate. by case_decide. }
  split; [by rewrite Horder|]. split.
  - unfold requestOrderDecryption, onlyTrader. rewrite Horder. cbn.
    rewrite Z.eqb_refl, bind_require_true.
    change (shadowAt (set_books (clearEntry (orderId - 1) (encryptedBuyPrices st))
                        (clearEntry (orderId - 1) (encryptedSellPrices st))
                        (deactivate orderId st)) orderId) with (shadowAt st orderId).
    rewrite Hshadow. reflexivity.
  - rewrite requestAt_set_request. by case_decide.
Qed.

(** Eligibility for an order reveal reads the trader and the shadow only. *)
Lemma requestOrderDecryption_eligible st sender orderId reqId :
  sender = EncryptedOrder.trader (orderAt st orderId) ->
  DecryptedOrder.isRevealed (shadowAt st orderId) = false ->
  exists logs, requestOrderDecryption sender orderId reqId st
               = Ok (set_request reqId orderId st, logs).
Proof.
  intros -> Hshadow. unfold requestOrderDecryption, onlyTrader.
  rewrite Z.eqb_refl, bind_require_true, Hshadow. cbn. eauto.
Qed.

(** C10.  [matchOrders] returns the state it was given, storage variable for
    storage variable, and logs exactly [OrderMatched(0, 0)]; no id the
    ledger has handed out is 0. *)
Theorem matchOrders_frame st sender :
  matchOrders sender st = Ok (st, [OrderMatched 0 0])
  /\ ~ In 0 (orderIds st).
Proof.
  split; [reflexivity|].
  unfold orderIds. rewrite in_map_iff. intros (i & Hi & _). lia.
Qed.

End Cancel.

Lemma cancelOrder_spec_witness :
  exists st',
    cancelOrder Scenario.alice 1 Scenario.two_orders = Ok (st', [])
    /\ EncryptedOrder.isActive (orderAt st' 1) = false
    /\ encryptedBuyPrices st' !! 0%nat = Some 0.
Proof.
  destruct (cancelOrder_spec Scenario.two_orders Scenario.alice 1
              (state_after_reachable _)) as (_ & _ & Hok).
  destruct (Hok eq_refl eq_refl) as (st' & Hcall & _ & Hactive & Hbuy & _).
  exists st'. split; [exact Hcall|]. split; [exact Hactive | exact Hbuy].
Defined.

Lemma requestOrderDecryption_after_cancel_witness :
  exists st1,
    cancelOrder Scenario.alice 1 Scenario.two_orders = Ok (st1, [])
    /\ EncryptedOrder.isActive (orderAt st1 1) = false
    /\ requestOrderDecryption Scenario.alice 1 7 st1
       = Ok (set_request 7 1 st1, [DecryptionRequested [2500; 2; 0]
                                     decryptOrder_selector 7]).
Proof.
  set (st1 := set_books
                (clearEntry 0 (encryptedBuyPrices Scenario.two_orders))
                (clearEntry 0 (encryptedSellPrices Scenario.two_orders))
                (deactivate 1 Scenario.two_orders)).
  assert (cancelOrder Scenario.alice 1 Scenario.two_orders = Ok (st1, [])) as Hcancel
    by vm_refl.
  assert (DecryptedOrder.isRevealed (shadowAt Scenario.two_orders 1) = false) as Hshadow
    by (vm_compute; reflexivity).
  exists st1. split; [exact Hcancel|].
  destruct (requestOrderDecryption_after_cancel
              Scenario.two_orders Scenario.alice 1 st1 [] 7 Hcancel Hshadow)
    as (Hactive & Hreq & _).
  split; [exact Hactive|].
  rewrite Hreq. vm_refl.
Defined.

(** ** The matching evaluator *)
Section Evaluator.

Context {L : FHE.Lib} {P : FHE.Plain L} {HL : FHE.Laws L P}.
Implicit Types st : State.

Lemma decrypt_zero : FHE.decrypt (FHE.asEuint32 0) = 0.
Proof. apply FHE.decrypt_asEuint32. unfold uint32_max. lia. Qed.

Lemma decrypt_one : FHE.decrypt (FHE.asEuint32 1) = 1.
Proof. apply FHE.decrypt_asEuint32. unfold uint32_max. lia. Qed.

Lemma decrypt_two : FHE.decrypt (FHE.asEuint32 2) = 2.
Proof. apply FHE.decrypt_asEuint32. unfold uint32_max. lia. Qed.

Lemma decrypt_max : FHE.decrypt (FHE.asEuint32 uint32_max) = uint32_max.
Proof. apply FHE.decrypt_asEuint32. unfold uint32_max. lia. Qed.

(** C6.  [canMatchOrders] reverts with "Inactive orders" (InactiveOrder)
    when either order is inactive.  When both are active it returns the
    ciphertext built by [FHE.and] from the four homomorphic tests -- the buy
    order's type equals 0, the sell order's type equals 1, buy price >= sell
    price, buy amount >= sell amount -- and that ciphertext decrypts to the
    conjunction of the four conditions on the plaintexts. *)
Theorem canMatchOrders_spec st buyId sellId :
  let buy := orderAt st buyId in
  let sell := orderAt st sellId in
  (EncryptedOrder.isActive buy = false \/ EncryptedOrder.isActive sell = false ->
   canMatchOrders buyId sellId st = InactiveOrder)
  /\ (EncryptedOrder.isActive buy = true -> EncryptedOrder.isActive sell = true ->
      exists c,
        canMatchOrders buyId sellId st = Ok c
        /\ c = FHE.and
                 (FHE.and (FHE.eq (EncryptedOrder.encryptedType buy) (FHE.asEuint32 0))
                          (FHE.eq (EncryptedOrder.encryptedType sell) (FHE.asEuint32 1)))
                 (FHE.and (FHE.ge (EncryptedOrder.encryptedPrice buy)
                                  (EncryptedOrder.encryptedPrice sell))
                          (FHE.ge (EncryptedOrder.encryptedAmount buy)
                                  (EncryptedOrder.encryptedAmount sell)))
        /\ FHE.decryptBool c
           = (sideOf st buyId =? 0) && (sideOf st sellId =? 1)
             && (priceOf st sellId <=? priceOf st buyId)
             && (amountOf st sellId <=? amountOf st buyId)).
Proof.
  intros buy sell. unfold canMatchOrders. fold buy sell. split.
  - intros [Hb | Hs].
    + rewrite Hb. reflexivity.
    + rewrite Hs, andb_false_r. reflexivity.
  - intros Hb Hs. rewrite Hb, Hs. cbn.
    eexists. split; [reflexivity|]. split; [reflexivity|].
    rewrite !FHE.decrypt_and, !FHE.decrypt_eq, !FHE.decrypt_ge.
    rewrite decrypt_zero, decrypt_one.
    unfold sideOf, priceOf, amountOf. fold buy sell.
    by rewrite andb_assoc.
Qed.

(** The price [calculateExecutionPrice] returns: the two prices are added
    in [euint32], where the sum wraps, and the wrapped sum is halved. *)
Lemma calculateExecutionPrice_decrypt st buyId sellId :
  FHE.decrypt (calculateExecutionPrice buyId sellId st)
  = Z.quot ((priceOf st buyId + priceOf st sellId) mod 2 ^ 32) 2.
Proof.
  unfold calculateExecutionPrice, priceOf.
  rewrite FHE.decrypt_div by (rewrite decrypt_two; lia).
  rewrite decrypt_two, FHE.decrypt_add.
  symmetry. apply Z.quot_div_nonneg; [|lia].
  apply Z.mod_pos_bound. lia.
Qed.

(** As long as the sum of the two prices fits 32 bits, that is the
    midpoint rounded toward zero. *)
Lemma calculateExecutionPrice_midpoint st buyId sellId :
  priceOf st buyId + priceOf st sellId <= uint32_max ->
  FHE.decrypt (calculateExecutionPrice buyId sellId st)
  = midpoint (priceOf st buyId) (priceOf st sellId).
Proof.
  intros Hsum. rewrite calculateExecutionPrice_decrypt. unfold midpoint.
  f_equal. apply Z.mod_small.
  pose proof (FHE.decrypt_range (EncryptedOrder.encryptedPrice (orderAt st buyId))).
  pose proof (FHE.decrypt_range (EncryptedOrder.encryptedPrice (orderAt st sellId))).
  unfold priceOf, uint32_max in *. lia.
Qed.

(** Whatever the implementation makes of an overflowing sum, half of a
    32-bit value is below 2^31: no midpoint at or above 2^31 is ever
    returned. *)
Lemma calculateExecutionPrice_below st buyId sellId :
  FHE.decrypt (calculateExecutionPrice buyId sellId st) < 2 ^ 31.
Proof.
  rewrite calculateExecutionPrice_decrypt.
  pose proof (Z.mod_pos_bound (priceOf st buyId + priceOf st sellId) (2 ^ 32) ltac:(lia))
    as Hmod.
  apply Z.quot_lt_upper_bound; lia.
Qed.

(** [calculateExecutionAmount] returns the smaller of the two amounts. *)
Lemma calculateExecutionAmount_decrypt st buyId sellId :
  FHE.decrypt (calculateExecutionAmount buyId sellId st)
  = Z.min (amountOf st buyId) (amountOf st sellId).
Proof.
  unfold calculateExecutionAmount, amountOf.
  rewrite FHE.decrypt_select, FHE.decrypt_lt.
  case_match eqn:Hlt; lia.
Qed.

End Evaluator.

Lemma canMatchOrders_spec_witness :
  canMatchOrders 1 2 Scenario.two_orders = Ok true
  /\ canMatchOrders 1 2 Scenario.match_pending = InactiveOrder.
Proof.
  pose proof (canMatchOrders_spec (HL := clear_laws) Scenario.two_orders 1 2) as [_ Hok].
  pose proof (canMatchOrders_spec (HL := clear_laws) Scenario.match_pending 1 2) as [Hno _].
  split.
  - destruct (Hok ltac:(vm_compute; reflexivity) ltac:(vm_compute; reflexivity))
      as (c & -> & _ & Hc).
    f_equal. etransitivity; [exact Hc | vm_compute; reflexivity].
  - apply Hno. left. vm_compute. reflexivity.
Defined.

(** The spec's scenario: 2500 against 2400 executes at 2450, two units. *)
Example execution_2450 :
  FHE.decrypt (Plain := Clear.plain) (calculateExecutionPrice 1 2 Scenario.two_orders) = 2450
  /\ FHE.decrypt (Plain := Clear.plain) (calculateExecutionAmount 1 2 Scenario.two_orders) = 2.
Proof. split; vm_compute; reflexivity. Qed.

(** C7, where the code departs from it.  Two orders priced 2^31 each: both
    prices are representable and their midpoint is 2^31, but the
    [euint32] sum wraps to 0 and the price returned decrypts to 0. *)
Theorem calculateExecutionPrice_overflow :
  priceOf (P := Clear.plain) Scenario.high_prices 1 = 2 ^ 31
  /\ priceOf (P := Clear.plain) Scenario.high_prices 2 = 2 ^ 31
  /\ midpoint (2 ^ 31) (2 ^ 31) = 2 ^ 31
  /\ FHE.decrypt (Plain := Clear.plain) (calculateExecutionPrice 1 2 Scenario.high_prices) = 0.
Proof. repeat split; vm_compute; reflexivity. Qed.

(** ** The book index and the best bid/ask scan *)
Section Book.

Context {L : FHE.Lib} {P : FHE.Plain L} {HL : FHE.Laws L P}.
Implicit Types st : State.

Lemma book_ok_initial : book_ok initial.
Proof. intros i Hi. cbn in Hi. lia. Qed.

(** A call that leaves both sequences alone and changes no order that is
    still active keeps the book in step with the ledger. *)
Lemma book_ok_same_books st st' :
  encryptedBuyPrices st' = encryptedBuyPrices st ->
  encryptedSellPrices st' = encryptedSellPrices st ->
  (forall id, EncryptedOrder.isActive (orderAt st' id) = true ->
              orderAt st' id = orderAt st id) ->
  book_ok st -> book_ok st'.
Proof.
  intros Hb Hs Horders Hbook i Hi id Hactive.
  rewrite Hb in Hi. specialize (Hbook i Hi).
  pose proof (Horders id Hactive) as Heq.
  unfold sideOf, priceOf. rewrite Hb, Hs, Heq.
  apply Hbook. fold id. by rewrite <- Heq.
Qed.

Lemma active_deactivate id st id' :
  EncryptedOrder.isActive (orderAt (deactivate id st) id') = true ->
  orderAt (deactivate id st) id' = orderAt st id'.
Proof.
  rewrite isActive_deactivate. intros [_ Hne]%andb_true_iff.
  rewrite orderAt_deactivate. case_decide; [lia | done].
Qed.

Lemma book_ok_deactivate id st : book_ok st -> book_ok (deactivate id st).
Proof. apply book_ok_same_books; [done | done | apply active_deactivate]. Qed.

Lemma book_ok_submit sender now p a t st st' logs :
  wf st -> book_ok st ->
  submitEncryptedOrder sender now p a t st = Ok (st', logs) -> book_ok st'.
Proof.
  intros [Hc Hb Hs Ha] Hbook (Hlt & _ & ->)%submitEncryptedOrder_Ok.
  set (newId := orderCount st + 1).
  set (o := EncryptedOrder.mk L newId sender p a t now true).
  intros i Hi id. cbn in Hi. rewrite length_app in Hi. cbn in Hi.
  unfold sideOf, priceOf. cbn [encryptedBuyPrices encryptedSellPrices set_books].
  change (orderAt (set_books _ _ _) id) with (orderAt (set_order newId o st) id).
  rewrite orderAt_set_order.
  destruct (decide (i = length (encryptedBuyPrices st))) as [->|Hne].
  - case_decide as Hid; [|subst id newId; lia].
    intros _. cbn [EncryptedOrder.encryptedType EncryptedOrder.encryptedPrice o].
    split.
    + rewrite app_nth2, Nat.sub_diag by lia. cbn.
      by rewrite FHE.decrypt_select, FHE.decrypt_eq, decrypt_zero.
    + rewrite Hb, <- Hs, app_nth2, Nat.sub_diag by lia. cbn.
      by rewrite FHE.decrypt_select, FHE.decrypt_eq, decrypt_zero, decrypt_one.
  - case_decide as Hid; [subst id newId; lia|].
    intros Hactive. rewrite !app_nth1 by lia.
    apply (Hbook i); [lia | done].
Qed.

Lemma nth_clearEntry_ne idx (book : list euint32) (i : nat) d :
  i <> Z.to_nat idx -> nth i (clearEntry idx book) d = nth i book d.
Proof. intros Hi. by rewrite !nth_lookup, clearEntry_lookup_ne. Qed.

Lemma book_ok_cancel sender orderId st st' logs :
  book_ok st -> cancelOrder sender orderId st = Ok (st', logs) -> book_ok st'.
Proof.
  intros Hbook (_ & _ & Hlo & _ & ->)%cancelOrder_Ok.
  intros i Hi id. cbn in Hi. rewrite length_clearEntry in Hi.
  unfold sideOf, priceOf. cbn [encryptedBuyPrices encryptedSellPrices set_books].
  change (orderAt (set_books _ _ _) id) with (orderAt (deactivate orderId st) id).
  intros Hactive. pose proof Hactive as Hid.
  rewrite isActive_deactivate in Hid. apply andb_true_iff in Hid as [Hold Hid].
  rewrite active_deactivate by done.
  rewrite !nth_clearEntry_ne by (subst id; lia).
  by apply (Hbook i).
Qed.

Lemma exec_book_ok sender c st st' logs :
  wf st -> book_ok st -> exec sender c st = Ok (st', logs) -> book_ok st'.
Proof.
  intros Hwf Hbook H. destruct c; cbn in H.
  - by eapply book_ok_submit.
  - by injection H as <- <-.
  - apply storeMatchResult_Ok in H as [_ ->].
    by apply book_ok_deactivate, book_ok_deactivate.
  - by apply requestOrderDecryption_Ok in H as (_ & _ & ->).
  - by apply decryptOrder_Ok in H as (_ & _ & _ & p & a & t & rest & _ & -> & _).
  - by eapply book_ok_cancel.
  - by apply requestMatchDecryption_Ok in H as [_ ->].
  - by apply decryptMatchResult_Ok in H as (_ & _ & -> & _).
Qed.

Lemma reachable_book_ok st : reachable st -> book_ok st.
Proof.
  induction 1 as [|st st' sender c logs Hreach IH Hexec].
  - apply book_ok_initial.
  - eapply exec_book_ok; [by apply reachable_wf | exact IH | exact Hexec].
Qed.

(** One iteration of the bid loop, on plaintexts. *)
Lemma bidStep_decrypt st best (i : nat) :
  book_ok st -> (i < length (encryptedBuyPrices st))%nat ->
  FHE.decrypt (bidStep st best i)
  = if isActiveBuy st (Z.of_nat i + 1)
    then Z.max (FHE.decrypt best) (priceOf st (Z.of_nat i + 1))
    else FHE.decrypt best.
Proof.
  intros Hbook Hi. specialize (Hbook i Hi). cbn zeta in Hbook.
  unfold bidStep, isActiveBuy.
  rewrite FHE.decrypt_select, !FHE.decrypt_and, FHE.decrypt_gt, FHE.decrypt_asEbool,
    FHE.decrypt_eq, decrypt_zero.
  fold (sideOf st (Z.of_nat i + 1)).
  destruct (EncryptedOrder.isActive (orderAt st (Z.of_nat i + 1))).
  - destruct (Hbook eq_refl) as [-> _].
    destruct (sideOf st (Z.of_nat i + 1) =? 0); cbn.
    + rewrite andb_true_r.
      destruct (Z.ltb_spec (FHE.decrypt best) (priceOf st (Z.of_nat i + 1))); lia.
    + by rewrite andb_false_r.
  - cbn. by rewrite andb_false_r.
Qed.

Lemma askStep_decrypt st best (i : nat) :
  book_ok st -> (i < length (encryptedBuyPrices st))%nat ->
  FHE.decrypt (askStep st best i)
  = if isActiveSell st (Z.of_nat i + 1)
    then Z.min (FHE.decrypt best) (priceOf st (Z.of_nat i + 1))
    else FHE.decrypt best.
Proof.
  intros Hbook Hi. specialize (Hbook i Hi). cbn zeta in Hbook.
  unfold askStep, isActiveSell.
  rewrite FHE.decrypt_select, !FHE.decrypt_and, FHE.decrypt_lt, FHE.decrypt_asEbool,
    FHE.decrypt_eq, decrypt_one.
  fold (sideOf st (Z.of_nat i + 1)).
  destruct (EncryptedOrder.isActive (orderAt st (Z.of_nat i + 1))).
  - destruct (Hbook eq_refl) as [_ ->].
    destruct (sideOf st (Z.of_nat i + 1) =? 1); cbn.
    + rewrite andb_true_r.
      destruct (Z.ltb_spec (priceOf st (Z.of_nat i + 1)) (FHE.decrypt best)); lia.
    + by rewrite andb_false_r.
  - cbn. by rewrite andb_false_r.
Qed.

Lemma bestBidOver_cons st id ids :
  bestBidOver st (id :: ids)
  = if isActiveBuy st id then Z.max (priceOf st id) (bestBidOver st ids)
    else bestBidOver st ids.
Proof. unfold bestBidOver. cbn. by destruct (isActiveBuy st id). Qed.

Lemma bestAskOver_cons st id ids :
  bestAskOver st (id :: ids)
  = if isActiveSell st id then Z.min (priceOf st id) (bestAskOver st ids)
    else bestAskOver st ids.
Proof. unfold bestAskOver. cbn. by destruct (isActiveSell st id). Qed.

Lemma bestBidOver_nonneg st ids : 0 <= bestBidOver st ids.
Proof.
  induction ids as [|id ids IH]; [done|].
  rewrite bestBidOver_cons. case_match; lia.
Qed.

Lemma bestAskOver_le_max st ids : bestAskOver st ids <= uint32_max.
Proof.
  induction ids as [|id ids IH]; [done|].
  rewrite bestAskOver_cons. case_match; lia.
Qed.

(** The bid loop over any run of indices computes the running maximum. *)
Lemma bid_scan st (idxs : list nat) best :
  book_ok st ->
  Forall (fun i => (i < length (encryptedBuyPrices st))%nat) idxs ->
  FHE.decrypt (fold_left (bidStep st) idxs best)
  = Z.max (FHE.decrypt best) (bestBidOver st (map (fun i => Z.of_nat i + 1) idxs)).
Proof.
  intros Hbook Hidxs. revert best.
  induction Hidxs as [|i idxs Hi _ IH]; intros best; cbn [fold_left map].
  - pose proof (FHE.decrypt_range best). cbn. lia.
  - rewrite IH, bidStep_decrypt, bestBidOver_cons by done.
    case_match; lia.
Qed.

Lemma ask_scan st (idxs : list nat) best :
  book_ok st ->
  Forall (fun i => (i < length (encryptedBuyPrices st))%nat) idxs ->
  FHE.decrypt (fold_left (askStep st) idxs best)
  = Z.min (FHE.decrypt best) (bestAskOver st (map (fun i => Z.of_nat i + 1) idxs)).
Proof.
  intros Hbook Hidxs. revert best.
  induction Hidxs as [|i idxs Hi _ IH]; intros best; cbn [fold_left map].
  - pose proof (FHE.decrypt_range best). cbn. lia.
  - rewrite IH, askStep_decrypt, bestAskOver_cons by done.
    case_match; lia.
Qed.

Lemma seq_below (n : nat) : Forall (fun i => (i < n)%nat) (seq 0 n).
Proof. apply Forall_forall. intros i Hi%elem_of_seq. lia. Qed.

(** In a reachable state the scan returns the extrema over the active
    orders of the matching side. *)
Lemma findBestBidAsk_decrypt st :
  reachable st ->
  FHE.decrypt (fst (findBestBidAsk st)) = bestBidOver st (orderIds st)
  /\ FHE.decrypt (snd (findBestBidAsk st)) = bestAskOver st (orderIds st).
Proof.
  intros Hreach. pose proof (reachable_book_ok st Hreach) as Hbook.
  apply reachable_wf in Hreach as [Hc Hb Hs Ha].
  unfold findBestBidAsk, orderIds. cbn [fst snd]. split.
  - rewrite bid_scan by (done || apply seq_below).
    rewrite decrypt_zero, Hb.
    pose proof (bestBidOver_nonneg st
                  (map (fun i => Z.of_nat i + 1) (seq 0 (Z.to_nat (orderCount st))))).
    lia.
  - rewrite ask_scan by (done || rewrite Hs, <- Hb; apply seq_below).
    rewrite decrypt_max, Hs.
    pose proof (bestAskOver_le_max st
                  (map (fun i => Z.of_nat i + 1) (seq 0 (Z.to_nat (orderCount st))))).
    lia.
Qed.

End Book.

(** ** Cancelling and the scan *)
Section CancelScan.

Context {L : FHE.Lib} {P : FHE.Plain L} {HL : FHE.Laws L P}.
Implicit Types st : State.

(** The plaintext view of the ledger after [cancelOrder k]: the order [k]
    is no longer active, nothing else moved. *)
Lemma cancel_view sender k st st' logs :
  cancelOrder sender k st = Ok (st', logs) ->
  orderIds st' = orderIds st
  /\ (forall id, priceOf st' id = priceOf st id)
  /\ (forall id, isActiveBuy st' id = isActiveBuy st id && negb (id =? k))
  /\ (forall id, isActiveSell st' id = isActiveSell st id && negb (id =? k)).
Proof.
  intros (_ & _ & _ & _ & ->)%cancelOrder_Ok.
  assert (forall id, orderAt (set_books (clearEntry (k - 1) (encryptedBuyPrices st))
                                (clearEntry (k - 1) (encryptedSellPrices st))
                                (deactivate k st)) id
                     = if decide (k = id)
                       then EncryptedOrder.set_isActive false (orderAt st k)
                       else orderAt st id) as Horder.
  { intros id. apply orderAt_deactivate. }
  split; [done|].
  unfold priceOf, isActiveBuy, isActiveSell, sideOf.
  split; [|split]; intros id; rewrite Horder; case_decide as Hid; subst; cbn.
  - done.
  - done.
  - by rewrite Z.eqb_refl, andb_false_r.
  - assert ((id =? k) = false) as -> by lia. by rewrite andb_true_r.
  - by rewrite Z.eqb_refl, andb_false_r.
  - assert ((id =? k) = false) as -> by lia. by rewrite andb_true_r.
Qed.

Lemma bestBidOver_cancel sender k st st' logs ids :
  cancelOrder sender k st = Ok (st', logs) ->
  bestBidOver st' ids = bestBidOver st (List.filter (fun id => negb (id =? k)) ids).
Proof.
  intros (_ & Hprice & Hbuy & _)%cancel_view.
  induction ids as [|id ids IH]; [done|].
  rewrite bestBidOver_cons, Hbuy, Hprice, IH. cbn [List.filter].
  destruct (id =? k); cbn [negb].
  - by rewrite andb_false_r.
  - by rewrite andb_true_r, bestBidOver_cons.
Qed.

Lemma bestAskOver_cancel sender k st st' logs ids :
  cancelOrder sender k st = Ok (st', logs) ->
  bestAskOver st' ids = bestAskOver st (List.filter (fun id => negb (id =? k)) ids).
Proof.
  intros (_ & Hprice & _ & Hsell)%cancel_view.
  induction ids as [|id ids IH]; [done|].
  rewrite bestAskOver_cons, Hsell, Hprice, IH. cbn [List.filter].
  destruct (id =? k); cbn [negb].
  - by rewrite andb_false_r.
  - by rewrite andb_true_r, bestAskOver_cons.
Qed.

(** C8, as the code has it.  In every reachable state the best bid
    [findBestBidAsk] returns decrypts to the maximum, folded from zero, of
    the prices of the active buy orders, and the best ask to the minimum,
    folded from the largest uint32, of the prices of the active sell orders.
    After [cancelOrder k] both are the extrema over the orders other than
    [k]: whatever its price, the cancelled order no longer contributes. *)
Theorem findBestBidAsk_spec st :
  reachable st ->
  FHE.decrypt (fst (findBestBidAsk st)) = bestBidOver st (orderIds st)
  /\ FHE.decrypt (snd (findBestBidAsk st)) = bestAskOver st (orderIds st)
  /\ forall sender k st' logs,
       cancelOrder sender k st = Ok (st', logs) ->
       FHE.decrypt (fst (findBestBidAsk st')) = bestBidOver st (otherIds st k)
       /\ FHE.decrypt (snd (findBestBidAsk st')) = bestAskOver st (otherIds st k).
Proof.
  intros Hreach.
  destruct (findBestBidAsk_decrypt st Hreach) as [Hbid Hask].
  split; [exact Hbid|]. split; [exact Hask|].
  intros sender k st' logs Hcancel.
  assert (reachable st') as Hreach'
    by (eapply (reachable_call st st' sender (CancelOrder k)); [exact Hreach | exact Hcancel]).
  destruct (findBestBidAsk_decrypt st' Hreach') as [-> ->].
  destruct (cancel_view _ _ _ _ _ Hcancel) as [-> _].
  unfold otherIds.
  by erewrite bestBidOver_cancel, bestAskOver_cancel.
Qed.

End CancelScan.

Lemma findBestBidAsk_spec_witness :
  FHE.decrypt (Plain := Clear.plain) (fst (findBestBidAsk Scenario.two_orders)) = 2500
  /\ FHE.decrypt (Plain := Clear.plain) (snd (findBestBidAsk Scenario.two_orders)) = 2400.
Proof.
  destruct (findBestBidAsk_spec (HL := clear_laws) Scenario.two_orders
              (state_after_reachable _)) as (Hbid & Hask & _).
  split.
  - rewrite Hbid. vm_compute. reflexivity.
  - rewrite Hask. vm_compute. reflexivity.
Defined.

(** C8 as stated fails where it says a cancel leaves the extrema unchanged:
    with a single buy order, at the largest price, the best bid is that
    price before the trader cancels and zero after. *)
Lemma cancel_moves_best_bid :
  FHE.decrypt (Plain := Clear.plain) (fst (findBestBidAsk Scenario.one_bid)) = uint32_max
  /\ exists st',
       cancelOrder Scenario.alice 1 Scenario.one_bid = Ok (st', [])
       /\ FHE.decrypt (Plain := Clear.plain) (fst (findBestBidAsk st')) = 0.
Proof.
  split; [vm_compute; reflexivity|].
  exists (set_books (clearEntry 0 (encryptedBuyPrices Scenario.one_bid))
                    (clearEntry 0 (encryptedSellPrices Scenario.one_bid))
                    (deactivate 1 Scenario.one_bid)).
  split; [vm_refl|]. vm_compute. reflexivity.
Qed.

(** ** The key of a match record *)

Lemma Z_of_byte_of_Z z : Z_of_byte (byte_of_Z z) = z mod 256.
Proof.
  unfold Z_of_byte, byte_of_Z.
  pose proof (Z.mod_pos_bound z 256 ltac:(lia)) as Hz.
  destruct (Byte.of_N (Z.to_N (z mod 256))) as [b|] eqn:Hb; cbn.
  - apply Byte.to_of_N in Hb. rewrite Hb. lia.
  - apply Byte.of_N_None_iff in Hb. lia.
Qed.

Lemma be_value_snoc bs b : be_value (bs ++ [b]) = be_value bs * 256 + Z_of_byte b.
Proof. unfold be_value. by rewrite fold_left_app. Qed.

Lemma length_be_bytes n v : length (be_bytes n v) = n.
Proof.
  revert v. induction n as [|n IH]; intros v; cbn; [done|].
  rewrite length_app, IH. cbn. lia.
Qed.

(** Decoding the [n] big-endian bytes of [v] gives back [v] up to 8n bits. *)
Lemma be_value_be_bytes n v : be_value (be_bytes n v) = v mod 256 ^ Z.of_nat n.
Proof.
  revert v. induction n as [|n IH]; intros v.
  - cbn. by rewrite Z.mod_1_r.
  - cbn [be_bytes]. rewrite be_value_snoc, IH, Z_of_byte_of_Z.
    rewrite Nat2Z.inj_succ, Z.pow_succ_r by lia.
    rewrite Z.rem_mul_r by lia. lia.
Qed.

Lemma be_bytes_inj v w :
  is_uint256 v -> is_uint256 w -> be_bytes 32 v = be_bytes 32 w -> v = w.
Proof.
  unfold is_uint256, uint256_max. intros Hv Hw Heq.
  apply (f_equal be_value) in Heq. rewrite !be_value_be_bytes in Heq.
  change (256 ^ Z.of_nat 32) with (2 ^ 256) in Heq.
  rewrite !Z.mod_small in Heq by lia. done.
Qed.

(** The preimage of the key determines the ordered pair. *)
Lemma encodePacked_inj a b a' b' :
  is_uint256 a -> is_uint256 b -> is_uint256 a' -> is_uint256 b' ->
  Abi.encodePacked a b = Abi.encodePacked a' b' -> a = a' /\ b = b'.
Proof.
  intros Ha Hb Ha' Hb' Heq. unfold Abi.encodePacked in Heq.
  apply app_inj_1 in Heq as [H1 H2]; [|by rewrite !length_be_bytes].
  split; by apply be_bytes_inj.
Qed.

Section MatchKey.

Context {L : FHE.Lib}.
Implicit Types st : State.

(** C1, as the code has it.  The key is the Keccak-256 digest of the buy id
    followed by the sell id, 32 bytes each, and both [storeMatchResult] and
    [requestMatchDecryption] compute it from the ids in that order: once
    [storeMatchResult] has committed [(buyId, sellId)], the record is read
    back under [matchIdOf buyId sellId] and any caller's
    [requestMatchDecryption] for [(buyId, sellId)] finds it complete and
    records that key as the request's target.  The hashed bytes of [(a, b)]
    and [(b, a)] are the same only when [a = b]. *)
Theorem matchId_ordered_pair st sender buyId sellId price amount :
  let st1 := deactivate sellId (deactivate buyId
               (set_match (matchIdOf buyId sellId)
                  (MatchResult.mk L buyId sellId price amount true) st)) in
  storeMatchResult sender buyId sellId price amount st
    = Ok (st1, [OrderMatched buyId sellId])
  /\ matchAt st1 (matchIdOf buyId sellId)
     = MatchResult.mk L buyId sellId price amount true
  /\ (forall caller reqId,
        requestMatchDecryption caller buyId sellId reqId st1
        = Ok (set_request reqId (matchIdOf buyId sellId) st1,
              [DecryptionRequested [FHE.toBytes32 price; FHE.toBytes32 amount]
                 decryptMatchResult_selector reqId]))
  /\ (is_uint256 buyId -> is_uint256 sellId ->
      Abi.encodePacked buyId sellId = Abi.encodePacked sellId buyId ->
      buyId = sellId).
Proof.
  intros st1.
  assert (matchAt st1 (matchIdOf buyId sellId)
          = MatchResult.mk L buyId sellId price amount true) as Hmatch.
  { change (matchAt (set_match (matchIdOf buyId sellId)
                       (MatchResult.mk L buyId sellId price amount true) st)
                    (matchIdOf buyId sellId)
            = MatchResult.mk L buyId sellId price amount true).
    rewrite matchAt_set_match. by case_decide. }
  split; [reflexivity|]. split; [exact Hmatch|]. split.
  - intros caller reqId. unfold requestMatchDecryption. by rewrite Hmatch.
  - intros Hb Hs Heq. by apply encodePacked_inj in Heq as [-> _].
Qed.

End MatchKey.

(** C1 as stated fails: the keys of [(1, 2)] and [(2, 1)] differ, so after
    [(1, 2)] is committed a reveal request for [(2, 1)] finds no record. *)
Lemma matchId_not_symmetric :
  matchIdOf 1 2 <> matchIdOf 2 1
  /\ requestMatchDecryption Scenario.bob 2 1 9
       (Scenario.state_after [(Scenario.alice, StoreMatchResult (L := Clear.lib) 1 2 2450 2)])
     = NotFound.
Proof.
  split.
  - intros H. vm_compute in H. discriminate.
  - vm_refl.
Qed.

(** ** The decryption callbacks *)
Section Callbacks.

Context {L : FHE.Lib}.
Implicit Types st : State.

(** A verified callback for an order writes the decoded price, amount and
    side (cut to [uint8]) into the order's shadow, marks it revealed and
    emits [OrderRevealed]. *)
Lemma decryptOrder_reveals st sender requestId cleartexts proof price amount side rest :
  requestAt st requestId <> 0 ->
  DecryptedOrder.isRevealed (shadowAt st (requestAt st requestId)) = false ->
  FHE.checkSignatures requestId cleartexts proof = true ->
  Abi.decode_uint32_array cleartexts = Some (price :: amount :: side :: rest) ->
  let orderId := requestAt st requestId in
  let st' := set_shadow orderId (DecryptedOrder.mk price amount (side mod 256) true) st in
  decryptOrder sender requestId cleartexts proof st = Ok (st', [OrderRevealed orderId])
  /\ shadowAt st' orderId = DecryptedOrder.mk price amount (side mod 256) true.
Proof.
  intros Hreq Hshadow Hsig Hdecode orderId st'. split.
  - unfold decryptOrder. fold orderId.
    assert ((orderId =? 0) = false) as -> by (subst orderId; lia).
    cbn [negb]. rewrite bind_require_true. fold orderId in Hshadow.
    rewrite Hshadow. cbn [negb]. rewrite bind_require_true, Hsig, bind_require_true.
    rewrite Hdecode. reflexivity.
  - unfold st'. rewrite shadowAt_set_shadow. by case_decide.
Qed.

(** A callback whose target order is already revealed reverts with
    "Already revealed", whatever it carries. *)
Lemma decryptOrder_already_revealed st sender requestId cleartexts proof :
  requestAt st requestId <> 0 ->
  DecryptedOrder.isRevealed (shadowAt st (requestAt st requestId)) = true ->
  decryptOrder sender requestId cleartexts proof st = AlreadyRevealed.
Proof.
  intros Hreq Hshadow. unfold decryptOrder.
  assert ((requestAt st requestId =? 0) = false) as -> by lia.
  cbn [negb]. rewrite bind_require_true, Hshadow. reflexivity.
Qed.

(** After a successful order callback, every further callback for the same
    order -- through the same request or another one -- is rejected. *)
Lemma decryptOrder_second_callback st sender requestId cleartexts proof st' logs :
  decryptOrder sender requestId cleartexts proof st = Ok (st', logs) ->
  forall sender' requestId' cleartexts' proof',
    requestAt st' requestId' = requestAt st requestId ->
    decryptOrder sender' requestId' cleartexts' proof' st' = AlreadyRevealed.
Proof.
  intros (Hreq & _ & _ & p & a & t & rest & _ & -> & _)%decryptOrder_Ok.
  intros sender' requestId' cleartexts' proof' Hsame.
  apply decryptOrder_already_revealed.
  - by rewrite Hsame.
  - rewrite Hsame, shadowAt_set_shadow. by case_decide.
Qed.

(** A revealed shadow of an order the ledger has handed out is never
    written again. *)
Lemma revealed_shadow_frozen st sender c st' logs id :
  1 <= id <= orderCount st ->
  DecryptedOrder.isRevealed (shadowAt st id) = true ->
  exec sender c st = Ok (st', logs) ->
  shadowAt st' id = shadowAt st id.
Proof.
  intros Hid Hrevealed H. destruct c; cbn in H.
  - apply submitEncryptedOrder_Ok in H as (_ & _ & ->).
    change (shadowAt (set_shadow (orderCount st + 1) (DecryptedOrder.mk 0 0 0 false) st) id
            = shadowAt st id).
    rewrite shadowAt_set_shadow. case_decide; [lia | done].
  - by injection H as <- <-.
  - by apply storeMatchResult_Ok in H as [_ ->].
  - by apply requestOrderDecryption_Ok in H as (_ & _ & ->).
  - apply decryptOrder_Ok in H as (_ & Hfresh & _ & p & a & t & rest & _ & -> & _).
    rewrite shadowAt_set_shadow. case_decide as Heq; [|done].
    rewrite Heq, Hrevealed in Hfresh. discriminate.
  - by apply cancelOrder_Ok in H as (_ & _ & _ & _ & ->).
  - by apply requestMatchDecryption_Ok in H as [_ ->].
  - by apply decryptMatchResult_Ok in H as (_ & _ & -> & _).
Qed.

(** C4, as the code has it.  Neither callback reads the caller: the
    outcome is the same for any two callers.  What a callback checks is the
    request id, which must be known (else "Invalid request"), and the proof,
    which [FHE.checkSignatures] must accept (else the call reverts); a call
    that reverts returns no state. *)
Theorem callbacks_ignore_caller st caller1 caller2 requestId cleartexts proof :
  decryptOrder caller1 requestId cleartexts proof st
    = decryptOrder caller2 requestId cleartexts proof st
  /\ decryptMatchResult caller1 requestId cleartexts proof st
    = decryptMatchResult caller2 requestId cleartexts proof st
  /\ (requestAt st requestId = 0 ->
      decryptOrder caller1 requestId cleartexts proof st = InvalidRequestId
      /\ decryptMatchResult caller1 requestId cleartexts proof st = InvalidRequestId)
  /\ (requestAt st requestId <> 0 ->
      FHE.checkSignatures requestId cleartexts proof = false ->
      decryptMatchResult caller1 requestId cleartexts proof st = ProofVerificationFailed
      /\ (DecryptedOrder.isRevealed (shadowAt st (requestAt st requestId)) = false ->
          decryptOrder caller1 requestId cleartexts proof st = ProofVerificationFailed)).
Proof.
  split; [reflexivity|]. split; [reflexivity|]. split.
  - intros Hreq. unfold decryptOrder, decryptMatchResult. rewrite Hreq. by split.
  - intros Hreq Hsig. unfold decryptOrder, decryptMatchResult.
    assert ((requestAt st requestId =? 0) = false) as -> by lia.
    cbn [negb]. rewrite !bind_require_true, Hsig. split; [reflexivity|].
    intros ->. reflexivity.
Qed.

End Callbacks.

(** C4 as stated fails: with the oracle's proof in hand, two different
    callers -- not both of them can be the oracle -- each complete the
    reveal of order 1. *)
Lemma callback_from_any_caller :
  Scenario.mallory <> Scenario.alice
  /\ DecryptedOrder.isRevealed (shadowAt Scenario.order_pending 1) = false
  /\ (exists st',
        decryptOrder Scenario.mallory 7 Scenario.order_cleartexts
          (Clear.sign 7 Scenario.order_cleartexts) Scenario.order_pending
        = Ok (st', [OrderRevealed 1])
        /\ shadowAt st' 1 = DecryptedOrder.mk 2500 2 0 true)
  /\ (exists st',
        decryptOrder Scenario.alice 7 Scenario.order_cleartexts
          (Clear.sign 7 Scenario.order_cleartexts) Scenario.order_pending
        = Ok (st', [OrderRevealed 1])
        /\ shadowAt st' 1 = DecryptedOrder.mk 2500 2 0 true).
Proof.
  split; [discriminate|]. split; [vm_compute; reflexivity|].
  split;
    exists (set_shadow 1 (DecryptedOrder.mk 2500 2 0 true) Scenario.order_pending);
    (split; [vm_refl | vm_compute; reflexivity]).
Qed.

(** C2, where the code departs from it.  The match of orders 1 and 2 is
    committed and its reveal requested under oracle id 9; the callback
    arrives with the match's plaintext price and amount and a proof that
    verifies.  [decryptMatchResult] succeeds, but the state it returns is the
    state it was given and its log is empty: nothing is stored, nothing is
    marked revealed, nothing is emitted. *)
Theorem decryptMatchResult_stores_nothing :
  requestAt Scenario.match_pending 9 = matchIdOf 1 2
  /\ MatchResult.isComplete (matchAt Scenario.match_pending (matchIdOf 1 2)) = true
  /\ Abi.decode_uint32_array Scenario.match_cleartexts = Some [2450; 2]
  /\ decryptMatchResult Scenario.mallory 9 Scenario.match_cleartexts
       (Clear.sign 9 Scenario.match_cleartexts) Scenario.match_pending
     = Ok (Scenario.match_pending, []).
Proof.
  split; [vm_compute; reflexivity|]. split; [vm_compute; reflexivity|].
  split; [vm_compute; reflexivity|]. vm_refl.
Qed.

(** C3, where the code departs from it.  The same callback delivered twice
    for the match target: the second delivery is accepted like the first,
    it does not revert with "Already revealed". *)
Theorem decryptMatchResult_twice :
  exists st1,
    decryptMatchResult Scenario.mallory 9 Scenario.match_cleartexts
      (Clear.sign 9 Scenario.match_cleartexts) Scenario.match_pending
    = Ok (st1, [])
    /\ decryptMatchResult Scenario.mallory 9 Scenario.match_cleartexts
         (Clear.sign 9 Scenario.match_cleartexts) st1
       = Ok (st1, [])
    /\ decryptMatchResult Scenario.mallory 9 Scenario.match_cleartexts
         (Clear.sign 9 Scenario.match_cleartexts) st1
       <> AlreadyRevealed.
Proof.
  exists Scenario.match_pending.
  assert (decryptMatchResult Scenario.mallory 9 Scenario.match_cleartexts
            (Clear.sign 9 Scenario.match_cleartexts) Scenario.match_pending
          = Ok (Scenario.match_pending, [])) as H by vm_refl.
  split; [exact H|]. split; [exact H|]. rewrite H. discriminate.
Qed.

(** The order path of the same run: the first callback reveals order 1,
    the second is rejected with "Already revealed". *)
Example decryptOrder_twice :
  exists st1,
    decryptOrder Scenario.mallory 7 Scenario.order_cleartexts
      (Clear.sign 7 Scenario.order_cleartexts) Scenario.order_pending
    = Ok (st1, [OrderRevealed 1])
    /\ decryptOrder Scenario.mallory 7 Scenario.order_cleartexts
         (Clear.sign 7 Scenario.order_cleartexts) st1
       = AlreadyRevealed.
Proof.
  exists (set_shadow 1 (DecryptedOrder.mk 2500 2 0 true) Scenario.order_pending).
  split; vm_refl.
Qed.

(** ** What one call can do to the ledger *)
Section Steps.

Context {L : FHE.Lib}.
Implicit Types st : State.

Lemma orderAt_deactivate_cases k st id :
  orderAt (deactivate k st) id = orderAt st id
  \/ orderAt (deactivate k st) id = EncryptedOrder.set_isActive false (orderAt st id).
Proof.
  rewrite orderAt_deactivate. case_decide; [subst; by right | by left].
Qed.

(** A successful call either hands out the next id, leaving every other
    order as it was, or hands out none and at most clears [isActive] flags. *)
Lemma exec_orders sender c st st' logs :
  exec sender c st = Ok (st', logs) ->
  (orderCount st' = orderCount st
   /\ forall id, orderAt st' id = orderAt st id
                 \/ orderAt st' id = EncryptedOrder.set_isActive false (orderAt st id))
  \/ (orderCount st' = orderCount st + 1
      /\ orderCount st < uint256_max
      /\ (forall id, id <> orderCount st + 1 -> orderAt st' id = orderAt st id)
      /\ exists now p a t,
           c = SubmitEncryptedOrder now p a t
           /\ orderAt st' (orderCount st + 1)
              = EncryptedOrder.mk L (orderCount st + 1) sender p a t now true).
Proof.
  intros H. destruct c; cbn in H.
  - right. apply submitEncryptedOrder_Ok in H as (Hlt & _ & ->).
    split; [done|]. split; [done|].
    set (o := EncryptedOrder.mk L (orderCount st + 1) sender encryptedPrice
                encryptedAmount encryptedType now true).
    assert (forall id, orderAt (set_books
               (encryptedBuyPrices st ++
                  [FHE.select (FHE.eq encryptedType (FHE.asEuint32 0)) encryptedPrice
                     (FHE.asEuint32 0)])
               (encryptedSellPrices st ++
                  [FHE.select (FHE.eq encryptedType (FHE.asEuint32 1)) encryptedPrice
                     (FHE.asEuint32 0)])
               (set_shadow (orderCount st + 1) (DecryptedOrder.mk 0 0 0 false)
                  (set_order (orderCount st + 1) o
                     (set_orderCount (orderCount st + 1) st)))) id
             = if decide (orderCount st + 1 = id) then o else orderAt st id) as Horder.
    { intros id. apply (orderAt_set_order (orderCount st + 1) o st id). }
    split.
    + intros id Hid. rewrite Horder. by case_decide.
    + exists now, encryptedPrice, encryptedAmount, encryptedType.
      split; [done|]. rewrite Horder. by case_decide.
  - left. injection H as <- <-. split; [done|]. by left.
  - left. apply storeMatchResult_Ok in H as [_ ->]. split; [done|].
    intros id.
    destruct (orderAt_deactivate_cases sellOrderId
                (deactivate buyOrderId
                   (set_match (matchIdOf buyOrderId sellOrderId)
                      (MatchResult.mk L buyOrderId sellOrderId encryptedPrice
                         encryptedAmount true) st)) id) as [-> | ->];
      destruct (orderAt_deactivate_cases buyOrderId
                  (set_match (matchIdOf buyOrderId sellOrderId)
                     (MatchResult.mk L buyOrderId sellOrderId encryptedPrice
                        encryptedAmount true) st) id) as [-> | ->];
      auto.
  - left. apply requestOrderDecryption_Ok in H as (_ & _ & ->). split; [done|]. by left.
  - left. apply decryptOrder_Ok in H as (_ & _ & _ & p & a & t & rest & _ & -> & _).
    split; [done|]. by left.
  - left. apply cancelOrder_Ok in H as (_ & _ & _ & _ & ->). split; [done|].
    intros id. apply (orderAt_deactivate_cases orderId st id).
  - left. apply requestMatchDecryption_Ok in H as [_ ->]. split; [done|]. by left.
  - left. apply decryptMatchResult_Ok in H as (_ & _ & -> & _). split; [done|]. by left.
Qed.

(** A successful call changes a shadow only by initialising the one of
    the id it hands out, or by revealing one that was not revealed. *)
Lemma exec_shadows sender c st st' logs id :
  exec sender c st = Ok (st', logs) ->
  shadowAt st' id = shadowAt st id
  \/ (id = orderCount st + 1 /\ orderCount st' = orderCount st + 1)
  \/ (DecryptedOrder.isRevealed (shadowAt st id) = false
      /\ DecryptedOrder.isRevealed (shadowAt st' id) = true).
Proof.
  intros H. destruct c; cbn in H.
  - apply submitEncryptedOrder_Ok in H as (_ & _ & ->).
    change (shadowAt (set_shadow (orderCount st + 1) (DecryptedOrder.mk 0 0 0 false) st) id
            = shadowAt st id
            \/ (id = orderCount st + 1 /\ orderCount st + 1 = orderCount st + 1)
            \/ (DecryptedOrder.isRevealed (shadowAt st id) = false
                /\ DecryptedOrder.isRevealed
                     (shadowAt (set_shadow (orderCount st + 1)
                                  (DecryptedOrder.mk 0 0 0 false) st) id) = true)).
    rewrite !shadowAt_set_shadow. case_decide; [right; left; by subst | by left].
  - left. by injection H as <- <-.
  - left. by apply storeMatchResult_Ok in H as [_ ->].
  - left. by apply requestOrderDecryption_Ok in H as (_ & _ & ->).
  - apply decryptOrder_Ok in H as (_ & Hfresh & _ & p & a & t & rest & _ & -> & _).
    rewrite !shadowAt_set_shadow. case_decide as Heq; [|by left].
    right; right. by rewrite <- Heq.
  - left. by apply cancelOrder_Ok in H as (_ & _ & _ & _ & ->).
  - left. by apply requestMatchDecryption_Ok in H as [_ ->].
  - left. by apply decryptMatchResult_Ok in H as (_ & _ & -> & _).
Qed.

End Steps.

(** ** Ledger invariants *)
Section Ledger.

Context {L : FHE.Lib}.
Implicit Types st : State.

Lemma reachable_orders st :
  reachable st ->
  (forall id, 1 <= id <= orderCount st -> EncryptedOrder.id (orderAt st id) = id)
  /\ (forall id, ~ (1 <= id <= orderCount st) -> orderAt st id = EncryptedOrder.zero).
Proof.
  induction 1 as [|st st' sender c logs Hreach [IHin IHout] Hexec].
  - split; intros id Hid; cbn in *; [lia|].
    unfold orderAt. cbn. by rewrite lookup_empty.
  - pose proof (reachable_wf st Hreach) as [Hc _ _ _].
    apply exec_orders in Hexec
      as [[Hcount Hsame] | (Hcount & Hlt & Hother & now & p & a & t & _ & Hnew)].
    + rewrite Hcount. split; intros id Hid.
      * destruct (Hsame id) as [-> | ->]; [by apply IHin|]. cbn. by apply IHin.
      * destruct (Hsame id) as [-> | ->]; [by apply IHout|]. by rewrite IHout.
    + rewrite Hcount. split; intros id Hid.
      * destruct (decide (id = orderCount st + 1)) as [->|Hne]; [by rewrite Hnew|].
        rewrite Hother by done. apply IHin. lia.
      * rewrite Hother by lia. apply IHout. lia.
Qed.

(** In every reachable state: [orderCount] is a [uint256], both book
    sequences hold exactly one entry per id handed out, the order stored
    under each id handed out carries that id, and every other id -- 0
    included -- reads as the all-zero order (no trader, inactive). *)
Theorem ledger_invariant st :
  reachable st ->
  0 <= orderCount st <= uint256_max
  /\ length (encryptedBuyPrices st) = Z.to_nat (orderCount st)
  /\ length (encryptedSellPrices st) = Z.to_nat (orderCount st)
  /\ (forall id, 1 <= id <= orderCount st -> EncryptedOrder.id (orderAt st id) = id)
  /\ (forall id, ~ (1 <= id <= orderCount st) -> orderAt st id = EncryptedOrder.zero).
Proof.
  intros Hreach. destruct (reachable_wf st Hreach) as [Hc Hb Hs _].
  destruct (reachable_orders st Hreach) as [Hin Hout]. done.
Qed.

Lemma leads_to_orderCount st st' :
  leads_to st st' -> orderCount st <= orderCount st'.
Proof.
  induction 1 as [|st st1 st' sender c logs _ IH Hexec]; [lia|].
  apply exec_orders in Hexec as [[-> _] | (-> & _)]; lia.
Qed.

Lemma leads_to_order st st' id :
  leads_to st st' ->
  1 <= id <= orderCount st ->
  orderAt st' id = orderAt st id
  \/ orderAt st' id = EncryptedOrder.set_isActive false (orderAt st id).
Proof.
  intros Hrun Hid.
  induction Hrun as [|st st1 st' sender c logs Hrun IH Hexec]; [by left|].
  pose proof (leads_to_orderCount _ _ Hrun) as Hmono.
  apply exec_orders in Hexec as [[_ Hsame] | (_ & _ & Hother & _)].
  - destruct (Hsame id) as [-> | ->]; [by apply IH|].
    right. by destruct (IH Hid) as [-> | ->].
  - rewrite Hother by lia. by apply IH.
Qed.

(** An order, once submitted, keeps its id, trader, ciphertexts and
    timestamp through every later call, and the only change its record ever
    sees is [isActive] going to false: an inactive order is never
    reactivated, and ids are never handed out twice. *)
Theorem order_lifecycle st st' id :
  leads_to st st' ->
  1 <= id <= orderCount st ->
  orderCount st <= orderCount st'
  /\ (orderAt st' id = orderAt st id
      \/ orderAt st' id = EncryptedOrder.set_isActive false (orderAt st id))
  /\ (EncryptedOrder.isActive (orderAt st id) = false ->
      EncryptedOrder.isActive (orderAt st' id) = false).
Proof.
  intros Hrun Hid. split; [by apply leads_to_orderCount|].
  pose proof (leads_to_order st st' id Hrun Hid) as Hcases.
  split; [exact Hcases|].
  intros Hinactive. destruct Hcases as [-> | ->]; done.
Qed.

(** The shadow of a submitted order is written once: after it is
    revealed, no later call of any kind changes it. *)
Theorem revealed_forever st st' id :
  leads_to st st' ->
  1 <= id <= orderCount st ->
  DecryptedOrder.isRevealed (shadowAt st id) = true ->
  shadowAt st' id = shadowAt st id.
Proof.
  intros Hrun Hid Hrevealed.
  induction Hrun as [|st st1 st' sender c logs Hrun IH Hexec]; [done|].
  pose proof (leads_to_orderCount _ _ Hrun) as Hmono.
  specialize (IH Hid Hrevealed).
  destruct (exec_shadows sender c st1 st' logs id Hexec)
    as [-> | [[Hnew _] | [Hfresh _]]].
  - exact IH.
  - lia.
  - rewrite IH, Hrevealed in Hfresh. discriminate.
Qed.

(** An id the ledger has not handed out reads as owned by address 0: for
    any other caller [cancelOrder], [requestOrderDecryption] and
    [getDecryptedOrder] revert with "Not order owner", and
    [canMatchOrders] reverts with "Inactive orders" whichever side the
    unknown id is on. *)
Theorem unknown_order_rejected st sender orderId other reqId :
  reachable st ->
  ~ (1 <= orderId <= orderCount st) ->
  sender <> 0 ->
  cancelOrder sender orderId st = Unauthorized
  /\ requestOrderDecryption sender orderId reqId st = Unauthorized
  /\ getDecryptedOrder sender orderId st = Unauthorized
  /\ canMatchOrders orderId other st = InactiveOrder
  /\ canMatchOrders other orderId st = InactiveOrder.
Proof.
  intros Hreach Hid Hsender.
  destruct (reachable_orders st Hreach) as [_ Hout].
  specialize (Hout orderId Hid).
  unfold cancelOrder, requestOrderDecryption, getDecryptedOrder, onlyTrader,
    canMatchOrders.
  rewrite Hout. cbn [EncryptedOrder.trader EncryptedOrder.isActive EncryptedOrder.zero].
  assert ((sender =? 0) = false) as -> by lia.
  rewrite andb_false_r. done.
Qed.

End Ledger.

(** Concrete runs are runs. *)
Lemma run_leads_to calls st st' :
  Scenario.run calls st = Ok st' -> leads_to st st'.
Proof.
  unfold Scenario.run.
  assert (forall acc, (forall s, acc = Ok s -> leads_to st s) ->
            fold_left (fun acc call =>
                         s ← acc; r ← exec (fst call) (snd call) s; Ok (fst r))
                      calls acc = Ok st' -> leads_to st st') as Hgen.
  { induction calls as [|[sender c] calls IH]; intros acc Hacc; cbn.
    - apply Hacc.
    - apply IH. intros s Hs.
      apply bind_Ok in Hs as (s0 & -> & Hs).
      apply bind_Ok in Hs as ([s1 logs] & Hexec & [= <-]).
      eapply leads_to_call; [by apply Hacc | exact Hexec]. }
  apply Hgen. intros s [= <-]. apply leads_to_refl.
Qed.

Lemma after_leads_to calls st : leads_to st (History.after calls st).
Proof.
  unfold History.after.
  destruct (Scenario.run calls st) eqn:Hrun; try apply leads_to_refl.
  by eapply run_leads_to.
Qed.

Lemma after_reachable calls st : reachable st -> reachable (History.after calls st).
Proof.
  intros Hreach. unfold History.after.
  destruct (Scenario.run calls st) eqn:Hrun; try done.
  by eapply run_reachable.
Qed.

Lemma ledger_invariant_witness :
  length (encryptedBuyPrices Scenario.two_orders) = 2%nat
  /\ EncryptedOrder.id (orderAt Scenario.two_orders 2) = 2
  /\ orderAt Scenario.two_orders 0 = EncryptedOrder.zero.
Proof.
  destruct (ledger_invariant Scenario.two_orders (state_after_reachable _))
    as (_ & Hb & _ & Hin & Hout).
  assert (orderCount Scenario.two_orders = 2) as Hcount by (vm_compute; reflexivity).
  rewrite Hcount in *.
  split; [exact Hb|]. split; [apply Hin; lia | apply Hout; lia].
Defined.

Lemma order_lifecycle_witness :
  orderCount Scenario.two_orders <= orderCount History.cancelled
  /\ (orderAt History.cancelled 1 = orderAt Scenario.two_orders 1
      \/ orderAt History.cancelled 1
         = EncryptedOrder.set_isActive false (orderAt Scenario.two_orders 1))
  /\ (EncryptedOrder.isActive (orderAt Scenario.two_orders 1) = false ->
      EncryptedOrder.isActive (orderAt History.cancelled 1) = false).
Proof.
  apply (order_lifecycle Scenario.two_orders History.cancelled 1).
  - apply after_leads_to.
  - vm_compute. split; discriminate.
Defined.

Lemma revealed_forever_witness :
  shadowAt History.revealed_later 1 = DecryptedOrder.mk 2500 2 0 true.
Proof.
  rewrite (revealed_forever History.revealed History.revealed_later 1).
  - vm_compute. reflexivity.
  - apply after_leads_to.
  - vm_compute. split; discriminate.
  - vm_compute. reflexivity.
Defined.

Lemma unknown_order_rejected_witness :
  cancelOrder Scenario.mallory 5 Scenario.two_orders = Unauthorized
  /\ requestOrderDecryption Scenario.mallory 5 7 Scenario.two_orders = Unauthorized
  /\ getDecryptedOrder Scenario.mallory 5 Scenario.two_orders = Unauthorized
  /\ canMatchOrders 5 1 Scenario.two_orders = InactiveOrder
  /\ canMatchOrders 1 5 Scenario.two_orders = InactiveOrder.
Proof.
  apply (unknown_order_rejected Scenario.two_orders Scenario.mallory 5 1 7).
  - apply state_after_reachable.
  - vm_compute. intros [_ H]. by apply H.
  - discriminate.
Defined.

(** ** Submitting and committing *)
Section Submit.

Context {L : FHE.Lib} {P : FHE.Plain L} {HL : FHE.Laws L P}.
Implicit Types st : State.

(** [submitEncryptedOrder] panics on arithmetic overflow when [orderCount]
    is at its maximum.  Otherwise it succeeds for any caller and any
    ciphertexts: the next id is handed out, the order is stored active with
    the caller as trader, its shadow is all-zero and unrevealed, and each book
    sequence grows by one entry -- the buy entry decrypts to the price when the
    side decrypts to 0 and to zero otherwise, the sell entry to the price when
    the side decrypts to 1 and to zero otherwise (so an order whose side is
    neither shows on neither side).  No other order or shadow is touched. *)
Theorem submitEncryptedOrder_spec st sender now p a t :
  (uint256_max <= orderCount st ->
   submitEncryptedOrder sender now p a t st = Panic PANIC_ARITHMETIC)
  /\ (orderCount st < uint256_max ->
      let newId := orderCount st + 1 in
      exists st' b s,
        submitEncryptedOrder sender now p a t st = Ok (st', [OrderSubmitted newId now])
        /\ orderCount st' = newId
        /\ orderAt st' newId = EncryptedOrder.mk L newId sender p a t now true
        /\ shadowAt st' newId = DecryptedOrder.mk 0 0 0 false
        /\ encryptedBuyPrices st' = encryptedBuyPrices st ++ [b]
        /\ encryptedSellPrices st' = encryptedSellPrices st ++ [s]
        /\ FHE.decrypt b = (if FHE.decrypt t =? 0 then FHE.decrypt p else 0)
        /\ FHE.decrypt s = (if FHE.decrypt t =? 1 then FHE.decrypt p else 0)
        /\ (forall id, id <> newId ->
              orderAt st' id = orderAt st id /\ shadowAt st' id = shadowAt st id)).
Proof.
  split.
  - intros Hmax. unfold submitEncryptedOrder.
    assert ((uint256_max <=? orderCount st) = true) as -> by lia. done.
  - intros Hlt. cbv zeta. unfold submitEncryptedOrder.
    assert ((uint256_max <=? orderCount st) = false) as -> by lia.
    eexists. eexists. eexists. split; [reflexivity|]. cbn.
    split; [done|]. split.
    { unfold orderAt. cbn. by rewrite lookup_insert_eq. }
    split.
    { unfold shadowAt. cbn. by rewrite lookup_insert_eq. }
    split; [done|]. split; [done|]. split.
    { by rewrite FHE.decrypt_select, FHE.decrypt_eq, decrypt_zero. }
    split.
    { by rewrite FHE.decrypt_select, FHE.decrypt_eq, decrypt_zero, decrypt_one. }
    intros id Hid. unfold orderAt, shadowAt. cbn.
    by rewrite !lookup_insert_ne.
Qed.

End Submit.

Section Commit.

Context {L : FHE.Lib}.
Implicit Types st : State.

(** [storeMatchResult] has no guard at all: for any caller, any two ids
    (submitted or not, active or not) and any ciphertexts it succeeds.  It
    stores the record as complete under the pair's key, replacing whatever
    was there, leaves both orders inactive -- so [canMatchOrders] on the
    pair now reverts -- and changes no other order, no other match record,
    and neither the shadows, the book sequences, the request table nor
    [orderCount]. *)
Theorem storeMatchResult_spec st sender buyId sellId price amount :
  exists st',
    storeMatchResult sender buyId sellId price amount st
      = Ok (st', [OrderMatched buyId sellId])
    /\ matchAt st' (matchIdOf buyId sellId)
       = MatchResult.mk L buyId sellId price amount true
    /\ EncryptedOrder.isActive (orderAt st' buyId) = false
    /\ EncryptedOrder.isActive (orderAt st' sellId) = false
    /\ canMatchOrders buyId sellId st' = InactiveOrder
    /\ (forall id, id <> buyId -> id <> sellId -> orderAt st' id = orderAt st id)
    /\ (forall k, k <> matchIdOf buyId sellId -> matchAt st' k = matchAt st k)
    /\ orderCount st' = orderCount st
    /\ decryptedOrders st' = decryptedOrders st
    /\ encryptedBuyPrices st' = encryptedBuyPrices st
    /\ encryptedSellPrices st' = encryptedSellPrices st
    /\ requestToOrderId st' = requestToOrderId st.
Proof.
  eexists. split; [reflexivity|].
  set (st0 := set_match (matchIdOf buyId sellId)
                (MatchResult.mk L buyId sellId price amount true) st).
  assert (forall id, EncryptedOrder.isActive (orderAt (deactivate sellId (deactivate buyId st0)) id)
                     = EncryptedOrder.isActive (orderAt st id)
                       && negb (id =? buyId) && negb (id =? sellId)) as Hactive.
  { intros id. by rewrite !isActive_deactivate. }
  assert (EncryptedOrder.isActive (orderAt (deactivate sellId (deactivate buyId st0)) buyId)
          = false) as Hbuy.
  { by rewrite Hactive, Z.eqb_refl, andb_false_r. }
  split.
  { change (matchAt st0 (matchIdOf buyId sellId)
            = MatchResult.mk L buyId sellId price amount true).
    unfold st0. rewrite matchAt_set_match. by case_decide. }
  split; [exact Hbuy|]. split.
  { by rewrite Hactive, Z.eqb_refl, andb_false_r. }
  split.
  { unfold canMatchOrders. by rewrite Hbuy. }
  split.
  { intros id Hb Hs. rewrite !orderAt_deactivate.
    case_decide; [congruence|]. case_decide; [congruence|]. done. }
  split.
  { intros k Hk.
    change (matchAt st0 k = matchAt st k).
    unfold st0. rewrite matchAt_set_match. case_decide; [congruence | done]. }
  done.
Qed.

End Commit.

Lemma submitEncryptedOrder_spec_witness :
  exists st' b s,
    submitEncryptedOrder (L := Clear.lib) Scenario.mallory 1002 777 1 2 Scenario.two_orders
      = Ok (st', [OrderSubmitted 3 1002])
    /\ encryptedBuyPrices st' = encryptedBuyPrices Scenario.two_orders ++ [b]
    /\ encryptedSellPrices st' = encryptedSellPrices Scenario.two_orders ++ [s]
    /\ FHE.decrypt (Plain := Clear.plain) b = 0
    /\ FHE.decrypt (Plain := Clear.plain) s = 0.
Proof.
  destruct (submitEncryptedOrder_spec (HL := clear_laws) Scenario.two_orders
              Scenario.mallory 1002 777 1 2) as [_ Hok].
  destruct Hok as (st' & b & s & Hcall & _ & _ & _ & Hbuys & Hsells & Hb & Hs & _).
  { vm_compute. reflexivity. }
  exists st', b, s. split; [|split; [exact Hbuys | split; [exact Hsells|]]].
  - rewrite Hcall. f_equal.
  - split; [rewrite Hb | rewrite Hs]; vm_compute; reflexivity.
Defined.

(** ** More on the scan *)
Section Scan.

Context {L : FHE.Lib} {P : FHE.Plain L} {HL : FHE.Laws L P}.
Implicit Types st : State.

Lemma orderIds_spec st id :
  In id (orderIds st) <-> 1 <= id <= orderCount st.
Proof.
  unfold orderIds. rewrite in_map_iff. split.
  - intros (i & <- & Hi%in_seq). lia.
  - intros Hid. exists (Z.to_nat (id - 1)). split; [lia|]. apply in_seq. lia.
Qed.

Lemma bestBidOver_deactivate k st ids :
  bestBidOver (deactivate k st) ids
  = bestBidOver st (List.filter (fun id => negb (id =? k)) ids).
Proof.
  induction ids as [|id ids IH]; [done|].
  rewrite bestBidOver_cons, IH. cbn [List.filter].
  unfold isActiveBuy, sideOf, priceOf. rewrite isActive_deactivate.
  rewrite orderAt_deactivate.
  destruct (Z.eqb_spec id k) as [->|Hne]; cbn [negb].
  - by rewrite andb_false_r.
  - rewrite andb_true_r, bestBidOver_cons. case_decide; [congruence|]. done.
Qed.

Lemma bestAskOver_deactivate k st ids :
  bestAskOver (deactivate k st) ids
  = bestAskOver st (List.filter (fun id => negb (id =? k)) ids).
Proof.
  induction ids as [|id ids IH]; [done|].
  rewrite bestAskOver_cons, IH. cbn [List.filter].
  unfold isActiveSell, sideOf, priceOf. rewrite isActive_deactivate.
  rewrite orderAt_deactivate.
  destruct (Z.eqb_spec id k) as [->|Hne]; cbn [negb].
  - by rewrite andb_false_r.
  - rewrite andb_true_r, bestAskOver_cons. case_decide; [congruence|]. done.
Qed.

(** Orders committed as a match drop out of the scan like cancelled ones,
    although [storeMatchResult] leaves their book entries in place: after it,
    the best bid and ask are the extrema over the orders other than the two
    matched. *)
Theorem findBestBidAsk_after_match st sender buyId sellId price amount st' logs :
  reachable st ->
  storeMatchResult sender buyId sellId price amount st = Ok (st', logs) ->
  let others := List.filter (fun id => negb (id =? buyId)) (otherIds st sellId) in
  FHE.decrypt (fst (findBestBidAsk st')) = bestBidOver st others
  /\ FHE.decrypt (snd (findBestBidAsk st')) = bestAskOver st others.
Proof.
  intros Hreach Hstore others.
  assert (reachable st') as Hreach'
    by (eapply (reachable_call st st' sender (StoreMatchResult buyId sellId price amount));
        [exact Hreach | exact Hstore]).
  destruct (findBestBidAsk_decrypt st' Hreach') as [-> ->].
  apply storeMatchResult_Ok in Hstore as [_ ->].
  unfold others, otherIds.
  change (orderIds (deactivate sellId (deactivate buyId
            (set_match (matchIdOf buyId sellId)
               (MatchResult.mk L buyId sellId price amount true) st))))
    with (orderIds st).
  rewrite !bestBidOver_deactivate, !bestAskOver_deactivate.
  done.
Qed.

Lemma bestBidOver_upper st ids id :
  In id ids -> isActiveBuy st id = true -> priceOf st id <= bestBidOver st ids.
Proof.
  induction ids as [|x ids IH]; [done|].
  rewrite bestBidOver_cons. intros [->|Hin] Hactive.
  - rewrite Hactive. lia.
  - specialize (IH Hin Hactive). case_match; lia.
Qed.

Lemma bestAskOver_lower st ids id :
  In id ids -> isActiveSell st id = true -> bestAskOver st ids <= priceOf st id.
Proof.
  induction ids as [|x ids IH]; [done|].
  rewrite bestAskOver_cons. intros [->|Hin] Hactive.
  - rewrite Hactive. lia.
  - specialize (IH Hin Hactive). case_match; lia.
Qed.

Lemma bestBidOver_attained st ids :
  bestBidOver st ids = 0
  \/ exists id, In id ids /\ isActiveBuy st id = true /\ priceOf st id = bestBidOver st ids.
Proof.
  induction ids as [|x ids IH]; [by left|].
  rewrite bestBidOver_cons. destruct (isActiveBuy st x) eqn:Hx.
  - right. destruct (Z.max_spec (priceOf st x) (bestBidOver st ids)) as [[Hlt ->]|[Hle ->]].
    + destruct IH as [Hzero | (id & Hin & Hactive & Hprice)].
      * exists x. split; [by left|]. split; [done|].
        pose proof (FHE.decrypt_range (EncryptedOrder.encryptedPrice (orderAt st x))).
        unfold priceOf in *. lia.
      * exists id. split; [by right|]. done.
    + exists x. split; [by left|]. done.
  - destruct IH as [Hzero | (id & Hin & Hactive & Hprice)]; [by left|].
    right. exists id. split; [by right|]. done.
Qed.

Lemma bestAskOver_attained st ids :
  bestAskOver st ids = uint32_max
  \/ exists id, In id ids /\ isActiveSell st id = true /\ priceOf st id = bestAskOver st ids.
Proof.
  induction ids as [|x ids IH]; [by left|].
  rewrite bestAskOver_cons. destruct (isActiveSell st x) eqn:Hx.
  - right. destruct (Z.min_spec (priceOf st x) (bestAskOver st ids)) as [[Hlt ->]|[Hle ->]].
    + exists x. split; [by left|]. done.
    + destruct IH as [Hmax | (id & Hin & Hactive & Hprice)].
      * exists x. split; [by left|]. split; [done|].
        pose proof (FHE.decrypt_range (EncryptedOrder.encryptedPrice (orderAt st x))).
        unfold priceOf in *. lia.
      * exists id. split; [by right|]. done.
  - destruct IH as [Hmax | (id & Hin & Hactive & Hprice)]; [by left|].
    right. exists id. split; [by right|]. done.
Qed.

(** In every reachable state the best bid is at least the price of every
    active buy order and is the price of one of them, or zero when there is
    none; the best ask is at most the price of every active sell order and is
    the price of one of them, or the largest uint32 when there is none. *)
Theorem findBestBidAsk_bounds st :
  reachable st ->
  let bid := FHE.decrypt (fst (findBestBidAsk st)) in
  let ask := FHE.decrypt (snd (findBestBidAsk st)) in
  (forall id, 1 <= id <= orderCount st -> isActiveBuy st id = true -> priceOf st id <= bid)
  /\ (forall id, 1 <= id <= orderCount st -> isActiveSell st id = true -> ask <= priceOf st id)
  /\ (bid = 0
      \/ exists id, 1 <= id <= orderCount st /\ isActiveBuy st id = true
                    /\ priceOf st id = bid)
  /\ (ask = uint32_max
      \/ exists id, 1 <= id <= orderCount st /\ isActiveSell st id = true
                    /\ priceOf st id = ask).
Proof.
  intros Hreach bid ask. unfold bid, ask.
  destruct (findBestBidAsk_decrypt st Hreach) as [-> ->].
  split; [|split; [|split]].
  - intros id Hid. apply bestBidOver_upper. by apply orderIds_spec.
  - intros id Hid. apply bestAskOver_lower. by apply orderIds_spec.
  - destruct (bestBidOver_attained st (orderIds st)) as [Hzero | (id & Hin & Hrest)];
      [by left|].
    right. exists id. split; [by apply orderIds_spec | done].
  - destruct (bestAskOver_attained st (orderIds st)) as [Hmax | (id & Hin & Hrest)];
      [by left|].
    right. exists id. split; [by apply orderIds_spec | done].
Qed.

(** The execution price as the code computes it: the two prices are added
    in [euint32], the sum wrapping modulo 2^32, and the wrapped sum is halved
    rounding toward zero.  That is the midpoint whenever the two prices sum to
    at most 2^32 - 1; the value returned is below 2^31 in every case, and the
    function reads no [isActive] flag: it answers for any two ids. *)
Theorem calculateExecutionPrice_spec st buyId sellId :
  let result := FHE.decrypt (calculateExecutionPrice buyId sellId st) in
  result = Z.quot ((priceOf st buyId + priceOf st sellId) mod 2 ^ 32) 2
  /\ (priceOf st buyId + priceOf st sellId <= uint32_max ->
      result = midpoint (priceOf st buyId) (priceOf st sellId))
  /\ result < 2 ^ 31.
Proof.
  cbv zeta. split; [apply calculateExecutionPrice_decrypt|].
  split; [apply calculateExecutionPrice_midpoint | apply calculateExecutionPrice_below].
Qed.

End Scan.

Lemma findBestBidAsk_after_match_witness :
  exists st',
    storeMatchResult (L := Clear.lib) Scenario.mallory 2 4 275 1 History.four_orders
      = Ok (st', [OrderMatched 2 4])
    /\ FHE.decrypt (Plain := Clear.plain) (fst (findBestBidAsk History.four_orders)) = 300
    /\ FHE.decrypt (Plain := Clear.plain) (fst (findBestBidAsk st')) = 200
    /\ FHE.decrypt (Plain := Clear.plain) (snd (findBestBidAsk st')) = uint32_max.
Proof.
  eexists. split; [reflexivity|]. split; [vm_compute; reflexivity|].
  destruct (findBestBidAsk_after_match (HL := clear_laws) History.four_orders
              Scenario.mallory 2 4 275 1 _ _ (state_after_reachable _) eq_refl)
    as [-> ->].
  split; vm_compute; reflexivity.
Defined.

Lemma findBestBidAsk_bounds_witness :
  priceOf (P := Clear.plain) History.four_orders 3
  <= FHE.decrypt (Plain := Clear.plain) (fst (findBestBidAsk History.four_orders))
  /\ FHE.decrypt (Plain := Clear.plain) (snd (findBestBidAsk History.four_orders))
     <= priceOf (P := Clear.plain) History.four_orders 4.
Proof.
  destruct (findBestBidAsk_bounds (HL := clear_laws) History.four_orders
              (state_after_reachable _)) as (Hbid & Hask & _).
  split.
  - apply Hbid; vm_compute; [split; discriminate | reflexivity].
  - apply Hask; vm_compute; [split; discriminate | reflexivity].
Defined.

Lemma calculateExecutionPrice_spec_witness :
  FHE.decrypt (Plain := Clear.plain) (calculateExecutionPrice 1 2 Scenario.two_orders)
  = midpoint (priceOf (P := Clear.plain) Scenario.two_orders 1)
             (priceOf (P := Clear.plain) Scenario.two_orders 2).
Proof.
  destruct (calculateExecutionPrice_spec (HL := clear_laws) Scenario.two_orders 1 2)
    as (_ & Hmid & _).
  apply Hmid. vm_compute. discriminate.
Defined.

Lemma calculateExecutionAmount_decrypt_witness :
  FHE.decrypt (Plain := Clear.plain) (calculateExecutionAmount 1 2 Scenario.two_orders)
  = Z.min (amountOf (P := Clear.plain) Scenario.two_orders 1)
          (amountOf (P := Clear.plain) Scenario.two_orders 2).
Proof. apply (calculateExecutionAmount_decrypt (HL := clear_laws)). Defined.

(** ** ABI payloads *)

Lemma word_app_here (pre post : list byte) v :
  Abi.word (pre ++ be_bytes 32 v ++ post) (Z.of_nat (length pre)) = v mod 2 ^ 256.
Proof.
  unfold Abi.word. rewrite Nat2Z.id, drop_app_length.
  rewrite take_app_length' by (symmetry; apply length_be_bytes).
  apply (be_value_be_bytes 32).
Qed.

Lemma word_flat_map (vs : list Z) (pre : list byte) (i : nat) v :
  vs !! i = Some v ->
  Abi.word (pre ++ flat_map (be_bytes 32) vs) (Z.of_nat (length pre) + 32 * Z.of_nat i)
  = v mod 2 ^ 256.
Proof.
  revert pre i. induction vs as [|x vs IH]; intros pre i Hi; [done|].
  destruct i as [|i]; cbn in Hi.
  - injection Hi as ->. rewrite Z.add_0_r. cbn [flat_map]. apply word_app_here.
  - cbn [flat_map]. rewrite app_assoc.
    replace (Z.of_nat (length pre) + 32 * Z.of_nat (S i))
      with (Z.of_nat (length (pre ++ be_bytes 32 x)) + 32 * Z.of_nat i)
      by (rewrite length_app, length_be_bytes; lia).
    by apply IH.
Qed.

Lemma length_flat_map_be_bytes (vs : list Z) :
  length (flat_map (be_bytes 32) vs) = (32 * length vs)%nat.
Proof.
  induction vs as [|x vs IH]; [done|].
  cbn [flat_map]. rewrite length_app, length_be_bytes, IH. cbn [length]. lia.
Qed.

(** Decoding an encoded [uint32[]] gives the array back. *)
Lemma decode_encode_uint32_array (vs : list Z) :
  Forall (fun v => 0 <= v <= uint32_max) vs ->
  Z.of_nat (length vs) <= 0xffffffffffffffff ->
  Abi.decode_uint32_array (Abi.encode_uint32_array vs) = Some vs.
Proof.
  intros Hvs Hlen. unfold Abi.decode_uint32_array, Abi.encode_uint32_array.
  set (n := Z.of_nat (length vs)).
  set (data := be_bytes 32 32 ++ be_bytes 32 n ++ flat_map (be_bytes 32) vs).
  assert (Z.of_nat (length data) = 64 + 32 * n) as Hsize.
  { unfold data. rewrite !length_app, !length_be_bytes, length_flat_map_be_bytes. lia. }
  assert (Abi.word data 0 = 32) as Hoff.
  { apply (word_app_here [] _ 32). }
  assert (Abi.word data 32 = n) as Hn.
  { unfold data.
    change 32 with (Z.of_nat (length (be_bytes 32 32))) at 1.
    rewrite word_app_here. apply Z.mod_small. lia. }
  cbv zeta. rewrite Hsize, Hoff.
  assert ((64 + 32 * n <? 32) = false) as -> by lia.
  assert ((18446744073709551615 <? 32) = false) as -> by lia.
  assert ((32 + 31 <? 64 + 32 * n) = true) as -> by lia.
  cbn [negb]. rewrite Hn.
  assert ((18446744073709551615 <? n) = false) as -> by lia.
  assert ((64 + 32 * n <? 32 + 32 + n * 32) = false) as -> by lia.
  unfold n. rewrite Nat2Z.id. apply mapM_Some.
  apply Forall2_same_length_lookup. split; [by rewrite length_seq|].
  intros i j v Hj Hv. apply lookup_seq in Hj as [-> _]. cbn [Nat.add].
  assert (Abi.word data (32 + 32 + 32 * Z.of_nat i) = v mod 2 ^ 256) as ->.
  { unfold data. rewrite app_assoc.
    replace (32 + 32 + 32 * Z.of_nat i)
      with (Z.of_nat (length (be_bytes 32 32 ++ be_bytes 32 (Z.of_nat (length vs))))
            + 32 * Z.of_nat i)
      by (rewrite length_app, !length_be_bytes; lia).
    by apply word_flat_map. }
  rewrite Forall_lookup in Hvs. specialize (Hvs i v Hv). cbv beta in Hvs.
  unfold uint32_max in *. rewrite Z.mod_small by lia.
  assert ((v <=? 2 ^ 32 - 1) = true) as -> by lia. done.
Qed.

(** ** Reveal requests and their callbacks *)
Section Reveal.

Context {L : FHE.Lib}.
Implicit Types st : State.

(** [requestOrderDecryption], case by case: anyone but the order's trader
    gets "Not order owner"; the trader gets "Already revealed" once the
    shadow is revealed; otherwise the call succeeds whether or not the order
    is active, sends the order's three ciphertexts to the oracle, and changes
    nothing but the request table, where the oracle's id now points at the
    order (replacing any earlier target of that id). *)
Theorem requestOrderDecryption_spec st sender orderId reqId :
  let o := orderAt st orderId in
  (sender <> EncryptedOrder.trader o ->
   requestOrderDecryption sender orderId reqId st = Unauthorized)
  /\ (sender = EncryptedOrder.trader o ->
      DecryptedOrder.isRevealed (shadowAt st orderId) = true ->
      requestOrderDecryption sender orderId reqId st = AlreadyRevealed)
  /\ (sender = EncryptedOrder.trader o ->
      DecryptedOrder.isRevealed (shadowAt st orderId) = false ->
      exists st',
        requestOrderDecryption sender orderId reqId st
          = Ok (st', [DecryptionRequested
                        [FHE.toBytes32 (EncryptedOrder.encryptedPrice o);
                         FHE.toBytes32 (EncryptedOrder.encryptedAmount o);
                         FHE.toBytes32 (EncryptedOrder.encryptedType o)]
                        decryptOrder_selector reqId])
        /\ requestAt st' reqId = orderId
        /\ (forall r, r <> reqId -> requestAt st' r = requestAt st r)
        /\ orderCount st' = orderCount st
        /\ encryptedOrders st' = encryptedOrders st
        /\ decryptedOrders st' = decryptedOrders st
        /\ matchResults st' = matchResults st
        /\ encryptedBuyPrices st' = encryptedBuyPrices st
        /\ encryptedSellPrices st' = encryptedSellPrices st).
Proof.
  intros o. unfold requestOrderDecryption, onlyTrader. fold o.
  split; [|split].
  - intros Hne. assert ((sender =? EncryptedOrder.trader o) = false) as -> by lia. done.
  - intros -> Hrevealed. by rewrite Z.eqb_refl, bind_require_true, Hrevealed.
  - intros -> Hfresh. rewrite Z.eqb_refl, bind_require_true, Hfresh. cbn [negb].
    rewrite bind_require_true. eexists. split; [reflexivity|].
    split; [rewrite requestAt_set_request; by case_decide|].
    split; [|done].
    intros r Hr. rewrite requestAt_set_request. case_decide; [congruence | done].
Qed.


(** The whole reveal of an order.  The trader requests it; the callback,
    from any caller, brings the ABI encoding of three uint32 values with a
    proof that verifies; afterwards the shadow holds exactly the first two
    values and the third cut to eight bits, it is marked revealed, and
    [getDecryptedOrder] hands these to the trader. *)
Theorem reveal_round_trip st trader caller orderId reqId price amount side proof :
  trader = EncryptedOrder.trader (orderAt st orderId) ->
  orderId <> 0 ->
  DecryptedOrder.isRevealed (shadowAt st orderId) = false ->
  0 <= price <= uint32_max -> 0 <= amount <= uint32_max -> 0 <= side <= uint32_max ->
  FHE.checkSignatures reqId (Abi.encode_uint32_array [price; amount; side]) proof = true ->
  exists st1 st2 logs,
    requestOrderDecryption trader orderId reqId st = Ok (st1, logs)
    /\ decryptOrder caller reqId (Abi.encode_uint32_array [price; amount; side]) proof st1
       = Ok (st2, [OrderRevealed orderId])
    /\ getDecryptedOrder trader orderId st2 = Ok (price, amount, side mod 256, true).
Proof.
  intros -> Hid Hfresh Hp Ha Hs Hsig.
  assert (Abi.decode_uint32_array (Abi.encode_uint32_array [price; amount; side])
          = Some [price; amount; side]) as Hdecode.
  { apply decode_encode_uint32_array; [|cbn; lia].
    constructor; [done|]. constructor; [done|]. constructor; [done|]. constructor. }
  destruct (requestOrderDecryption_eligible st _ orderId reqId eq_refl Hfresh)
    as [logs Hreq].
  set (st1 := set_request reqId orderId st) in *.
  assert (requestAt st1 reqId = orderId) as Htarget.
  { unfold st1. rewrite requestAt_set_request. by case_decide. }
  destruct (decryptOrder_reveals st1 caller reqId _ proof price amount side []
              ltac:(by rewrite Htarget) ltac:(by rewrite Htarget) Hsig Hdecode)
    as [Hcall Hshadow].
  rewrite Htarget in Hcall, Hshadow.
  eexists st1, _, logs. split; [exact Hreq|]. split; [exact Hcall|].
  unfold getDecryptedOrder, onlyTrader.
  change (orderAt (set_shadow orderId
                     (DecryptedOrder.mk price amount (side mod 256) true) st1) orderId)
    with (orderAt st orderId).
  rewrite Z.eqb_refl, bind_require_true, Hshadow. done.
Qed.

(** The request table is shared by both kinds of reveal and the
    callbacks do not tell them apart: a request made by
    [requestMatchDecryption] is accepted by [decryptOrder], which then
    writes an order shadow under the match key and emits [OrderRevealed]
    for it. *)
Theorem match_request_completes_as_order
    st sender caller buyId sellId reqId st1 logs cleartexts proof x y z rest :
  requestMatchDecryption sender buyId sellId reqId st = Ok (st1, logs) ->
  matchIdOf buyId sellId <> 0 ->
  DecryptedOrder.isRevealed (shadowAt st (matchIdOf buyId sellId)) = false ->
  FHE.checkSignatures reqId cleartexts proof = true ->
  Abi.decode_uint32_array cleartexts = Some (x :: y :: z :: rest) ->
  decryptOrder caller reqId cleartexts proof st1
  = Ok (set_shadow (matchIdOf buyId sellId) (DecryptedOrder.mk x y (z mod 256) true) st1,
        [OrderRevealed (matchIdOf buyId sellId)]).
Proof.
  intros [_ ->]%requestMatchDecryption_Ok Hkey Hfresh Hsig Hdecode.
  set (st1 := set_request reqId (matchIdOf buyId sellId) st).
  assert (requestAt st1 reqId = matchIdOf buyId sellId) as Htarget.
  { unfold st1. rewrite requestAt_set_request. by case_decide. }
  destruct (decryptOrder_reveals st1 caller reqId cleartexts proof x y z rest
              ltac:(by rewrite Htarget) ltac:(by rewrite Htarget) Hsig Hdecode)
    as [Hcall _].
  by rewrite Htarget in Hcall.
Qed.

End Reveal.

Lemma reveal_round_trip_witness :
  exists st1 st2 logs,
    requestOrderDecryption Scenario.alice 1 7 Scenario.two_orders = Ok (st1, logs)
    /\ decryptOrder Scenario.mallory 7 (Abi.encode_uint32_array [2500; 2; 257])
         (Clear.sign 7 (Abi.encode_uint32_array [2500; 2; 257])) st1
       = Ok (st2, [OrderRevealed 1])
    /\ getDecryptedOrder Scenario.alice 1 st2 = Ok (2500, 2, 1, true).
Proof.
  apply (reveal_round_trip Scenario.two_orders Scenario.alice Scenario.mallory 1 7
           2500 2 257 (Clear.sign 7 (Abi.encode_uint32_array [2500; 2; 257]))).
  - vm_compute. reflexivity.
  - discriminate.
  - vm_compute. reflexivity.
  - unfold uint32_max. lia.
  - unfold uint32_max. lia.
  - unfold uint32_max. lia.
  - vm_compute. reflexivity.
Defined.

Lemma match_request_completes_as_order_witness :
  exists st1,
    requestMatchDecryption Scenario.bob 1 2 9 History.matched
    = Ok (st1, [DecryptionRequested [2450; 2] decryptMatchResult_selector 9])
    /\ decryptOrder Scenario.mallory 9 Scenario.order_cleartexts
         (Clear.sign 9 Scenario.order_cleartexts) st1
       = Ok (set_shadow (matchIdOf 1 2) (DecryptedOrder.mk 2500 2 0 true) st1,
             [OrderRevealed (matchIdOf 1 2)]).
Proof.
  exists (set_request 9 (matchIdOf 1 2) History.matched).
  assert (requestMatchDecryption Scenario.bob 1 2 9 History.matched
          = Ok (set_request 9 (matchIdOf 1 2) History.matched,
                [DecryptionRequested [2450; 2] decryptMatchResult_selector 9])) as Hreq
    by vm_refl.
  split; [exact Hreq|].
  apply (match_request_completes_as_order History.matched Scenario.bob Scenario.mallory
           1 2 9 _ _ Scenario.order_cleartexts _ 2500 2 0 [] Hreq).
  - intros H. vm_compute in H. discriminate.
  - vm_compute. reflexivity.
  - vm_compute. reflexivity.
  - vm_compute. reflexivity.
Defined.

(** ** Match records, dead orders and the book over time *)

(* The key is a Keccak digest: never unfold it while simplifying. *)
Arguments matchIdOf : simpl never.

Section Persistence.

Context {L : FHE.Lib}.
Implicit Types st : State.

(** A successful call leaves every match record alone unless it is
    [storeMatchResult], which writes the one under the pair's key. *)
Lemma exec_matches sender c st st' logs :
  exec sender c st = Ok (st', logs) ->
  (forall k, matchAt st' k = matchAt st k)
  \/ exists b s p a,
       c = StoreMatchResult b s p a
       /\ forall k, matchAt st' k
                    = if decide (matchIdOf b s = k) then MatchResult.mk L b s p a true
                      else matchAt st k.
Proof.
  intros H. destruct c; cbn in H.
  - left. by apply submitEncryptedOrder_Ok in H as (_ & _ & ->).
  - left. by injection H as <- <-.
  - right. apply storeMatchResult_Ok in H as [_ ->].
    exists buyOrderId, sellOrderId, encryptedPrice, encryptedAmount. split; [done|].
    intros k. apply (matchAt_set_match (matchIdOf buyOrderId sellOrderId) _ st k).
  - left. by apply requestOrderDecryption_Ok in H as (_ & _ & ->).
  - left. by apply decryptOrder_Ok in H as (_ & _ & _ & p & a & t & rest & _ & -> & _).
  - left. by apply cancelOrder_Ok in H as (_ & _ & _ & _ & ->).
  - left. by apply requestMatchDecryption_Ok in H as [_ ->].
  - left. by apply decryptMatchResult_Ok in H as (_ & _ & -> & _).
Qed.

(** In every reachable state a match record is either the all-zero
    record, not complete, or a complete record stored under the key of the
    very pair of ids it names. *)
Theorem match_records_keyed st k :
  reachable st ->
  let m := matchAt st k in
  (MatchResult.isComplete m = false -> m = MatchResult.zero)
  /\ (MatchResult.isComplete m = true ->
      matchIdOf (MatchResult.buyOrderId m) (MatchResult.sellOrderId m) = k).
Proof.
  intros Hreach. cbv zeta. revert k.
  induction Hreach as [|st st' sender c logs Hreach IH Hexec]; intros k.
  - assert (matchAt initial k = MatchResult.zero) as ->.
    { unfold matchAt, initial. cbn [matchResults]. by rewrite lookup_empty. }
    split; [done | discriminate].
  - destruct (exec_matches sender c st st' logs Hexec)
      as [Hsame | (b & s & p & a & _ & Hnew)].
    + rewrite Hsame. apply IH.
    + rewrite Hnew. case_decide as Hk; [|apply IH].
      cbn [MatchResult.isComplete MatchResult.buyOrderId MatchResult.sellOrderId].
      split; [discriminate | done].
Qed.

Lemma leads_to_match_complete st st' k :
  leads_to st st' ->
  MatchResult.isComplete (matchAt st k) = true ->
  MatchResult.isComplete (matchAt st' k) = true.
Proof.
  intros Hrun Hdone.
  induction Hrun as [|st st1 st' sender c logs Hrun IH Hexec]; [done|].
  destruct (exec_matches sender c st1 st' logs Hexec)
    as [Hsame | (b & s & p & a & _ & Hnew)].
  - rewrite Hsame. by apply IH.
  - rewrite Hnew. case_decide; [done | by apply IH].
Qed.

(** Match records are never deleted: once a pair is committed, in every
    later state any caller's [requestMatchDecryption] for that pair, in the
    same order, succeeds and records the pair's key as its target. *)
Theorem committed_match_stays_requestable
    st sender buyId sellId price amount st1 logs st2 caller reqId :
  storeMatchResult sender buyId sellId price amount st = Ok (st1, logs) ->
  leads_to st1 st2 ->
  exists logs',
    requestMatchDecryption caller buyId sellId reqId st2
    = Ok (set_request reqId (matchIdOf buyId sellId) st2, logs').
Proof.
  intros [_ ->]%storeMatchResult_Ok Hrun.
  apply (leads_to_match_complete _ _ (matchIdOf buyId sellId)) in Hrun as Hdone.
  - unfold requestMatchDecryption. rewrite Hdone, bind_require_true. eauto.
  - change (MatchResult.isComplete
              (matchAt (set_match (matchIdOf buyId sellId)
                          (MatchResult.mk L buyId sellId price amount true) st)
                       (matchIdOf buyId sellId)) = true).
    rewrite matchAt_set_match. by case_decide.
Qed.

(** A cancelled order is dead for good: in every later state a second
    [cancelOrder] by its trader reverts with "Order not active", and
    [canMatchOrders] reverts with "Inactive orders" whichever side the order
    is put on. *)
Theorem cancelled_order_is_dead st sender orderId st1 logs st2 other :
  reachable st ->
  cancelOrder sender orderId st = Ok (st1, logs) ->
  leads_to st1 st2 ->
  cancelOrder sender orderId st2 = NotActive
  /\ canMatchOrders orderId other st2 = InactiveOrder
  /\ canMatchOrders other orderId st2 = InactiveOrder.
Proof.
  intros Hreach Hcancel Hrun.
  destruct (reachable_wf st Hreach) as [_ _ _ Hrange].
  apply cancelOrder_Ok in Hcancel as (Htrader & Hactive & Hlo & _ & ->).
  specialize (Hrange orderId Hactive).
  assert (orderAt st2 orderId = EncryptedOrder.set_isActive false (orderAt st orderId))
    as Horder.
  { destruct (leads_to_order _ st2 orderId Hrun ltac:(cbn; lia)) as [-> | ->].
    - change (orderAt (deactivate orderId st) orderId
              = EncryptedOrder.set_isActive false (orderAt st orderId)).
      rewrite orderAt_deactivate. by case_decide.
    - change (EncryptedOrder.set_isActive false (orderAt (deactivate orderId st) orderId)
              = EncryptedOrder.set_isActive false (orderAt st orderId)).
      rewrite orderAt_deactivate. by case_decide. }
  unfold cancelOrder, onlyTrader, canMatchOrders. rewrite Horder. cbn.
  rewrite <- Htrader, Z.eqb_refl, andb_false_r. done.
Qed.

(** What one call does to the two book sequences: nothing, one entry
    appended to each, or the entries at one index cleared in both. *)
Lemma exec_books sender c st st' logs :
  exec sender c st = Ok (st', logs) ->
  (encryptedBuyPrices st' = encryptedBuyPrices st
   /\ encryptedSellPrices st' = encryptedSellPrices st)
  \/ (exists b s, encryptedBuyPrices st' = encryptedBuyPrices st ++ [b]
                  /\ encryptedSellPrices st' = encryptedSellPrices st ++ [s])
  \/ (exists idx, encryptedBuyPrices st' = clearEntry idx (encryptedBuyPrices st)
                  /\ encryptedSellPrices st' = clearEntry idx (encryptedSellPrices st)).
Proof.
  intros H. destruct c; cbn in H.
  - right; left. apply submitEncryptedOrder_Ok in H as (_ & _ & ->). cbn. eauto.
  - left. by injection H as <- <-.
  - left. by apply storeMatchResult_Ok in H as [_ ->].
  - left. by apply requestOrderDecryption_Ok in H as (_ & _ & ->).
  - left. by apply decryptOrder_Ok in H as (_ & _ & _ & p & a & t & rest & _ & -> & _).
  - right; right. apply cancelOrder_Ok in H as (_ & _ & _ & _ & ->). cbn. eauto.
  - left. by apply requestMatchDecryption_Ok in H as [_ ->].
  - left. by apply decryptMatchResult_Ok in H as (_ & _ & -> & _).
Qed.

Lemma clearEntry_lookup_cases idx (book : list euint32) (i : nat) e :
  book !! i = Some e ->
  clearEntry idx book !! i = Some e \/ clearEntry idx book !! i = Some (FHE.asEuint32 0).
Proof.
  intros Hi. unfold clearEntry. case_match; [|by left].
  destruct (decide (i = Z.to_nat idx)) as [->|Hne].
  - right. apply list_lookup_insert_eq. by eapply lookup_lt_Some.
  - left. by rewrite list_lookup_insert_ne.
Qed.

(** The book sequences only grow, and an entry, once written, is never
    changed except to the encrypted zero a cancel puts there -- after which
    it stays that zero. *)
Theorem book_entries_monotone st st' (i : nat) b s :
  leads_to st st' ->
  encryptedBuyPrices st !! i = Some b ->
  encryptedSellPrices st !! i = Some s ->
  (encryptedBuyPrices st' !! i = Some b
   \/ encryptedBuyPrices st' !! i = Some (FHE.asEuint32 0))
  /\ (encryptedSellPrices st' !! i = Some s
      \/ encryptedSellPrices st' !! i = Some (FHE.asEuint32 0)).
Proof.
  intros Hrun Hb Hs.
  induction Hrun as [|st st1 st' sender c logs Hrun IH Hexec]; [by split; left|].
  destruct (IH Hb Hs) as [IHb IHs].
  destruct (exec_books sender c st1 st' logs Hexec)
    as [[-> ->] | [(b' & s' & -> & ->) | (idx & -> & ->)]].
  - done.
  - split.
    + destruct IHb as [H|H]; [left | right]; by apply lookup_app_l_Some.
    + destruct IHs as [H|H]; [left | right]; by apply lookup_app_l_Some.
  - split.
    + destruct IHb as [H|H];
        destruct (clearEntry_lookup_cases idx _ i _ H) as [H'|H']; auto.
    + destruct IHs as [H|H];
        destruct (clearEntry_lookup_cases idx _ i _ H) as [H'|H']; auto.
Qed.

End Persistence.

Lemma match_records_keyed_witness :
  matchAt History.matched 12345 = MatchResult.zero
  /\ matchIdOf (MatchResult.buyOrderId (matchAt History.matched (matchIdOf 1 2)))
               (MatchResult.sellOrderId (matchAt History.matched (matchIdOf 1 2)))
     = matchIdOf 1 2.
Proof.
  assert (reachable History.matched) as Hreach
    by apply after_reachable, state_after_reachable.
  destruct (match_records_keyed History.matched 12345 Hreach) as [Hzero _].
  destruct (match_records_keyed History.matched (matchIdOf 1 2) Hreach) as [_ Hkey].
  split; [apply Hzero | apply Hkey]; vm_compute; reflexivity.
Defined.

Lemma committed_match_stays_requestable_witness :
  exists logs',
    requestMatchDecryption Scenario.bob 1 2 9 History.matched_later
    = Ok (set_request 9 (matchIdOf 1 2) History.matched_later, logs').
Proof.
  apply (committed_match_stays_requestable Scenario.two_orders Scenario.mallory
           1 2 2450 2 History.matched [OrderMatched 1 2]).
  - reflexivity.
  - apply after_leads_to.
Defined.

Lemma cancelled_order_is_dead_witness :
  cancelOrder Scenario.alice 1 History.cancelled_later = NotActive
  /\ canMatchOrders 1 2 History.cancelled_later = InactiveOrder
  /\ canMatchOrders 2 1 History.cancelled_later = InactiveOrder.
Proof.
  apply (cancelled_order_is_dead Scenario.two_orders Scenario.alice 1
           History.cancelled [] History.cancelled_later 2).
  - apply state_after_reachable.
  - reflexivity.
  - apply after_leads_to.
Defined.

Lemma book_entries_monotone_witness :
  (encryptedBuyPrices History.cancelled_later !! 1%nat = Some 0
   \/ encryptedBuyPrices History.cancelled_later !! 1%nat = Some (Clear.norm 0))
  /\ (encryptedSellPrices History.cancelled_later !! 1%nat = Some 2400
      \/ encryptedSellPrices History.cancelled_later !! 1%nat = Some (Clear.norm 0)).
Proof.
  apply (book_entries_monotone History.cancelled History.cancelled_later 1 0 2400).
  - apply after_leads_to.
  - vm_compute. reflexivity.
  - vm_compute. reflexivity.
Defined.
